(** * rogneur: the pan/zoom state engine of [src/index.js]

    A shallow embedding of the state engine of rogneur (the closure
    variable [state], its handlers [getPosition] and [getZoom], and the
    entry points [setState], [applyState] and [getState]) together with
    the properties stated about it.

    Number model.  The engine is embedded twice.  In the first
    embedding a JavaScript number is an exact rational ([Q]); the engine
    only adds, subtracts, multiplies, compares and divides by a non-zero
    value, so no other finite value arises.  The single non-number
    [None] stands for both [undefined] (a missing
    [width]/[height]/[x]/[y]) and [NaN]: the two behave alike under every
    operation the engine performs (arithmetic yields [NaN], every
    comparison is false, [!v] is true).  Rounding is absent from this
    embedding; the second embedding, [B64], computes with binary64
    numbers, and what rounding decides (the order of the bounds of
    [calcPos], the invariants of the state) is stated there. *)

From Stdlib Require Import String QArith Qminmax Lqa Lia List Bool PeanoNat SpecFloat.
Import ListNotations.
Open Scope Q_scope.

(** ** JavaScript numbers *)

Definition num := option Q.

Definition lift2 (f : Q -> Q -> Q) (a b : num) : num :=
  match a, b with
  | Some p, Some q => Some (f p q)
  | _, _ => None
  end.

Definition nadd : num -> num -> num := lift2 Qplus.
Definition nsub : num -> num -> num := lift2 Qminus.
Definition nmul : num -> num -> num := lift2 Qmult.

(** [a / b].  The engine divides by the literal [2] and by the larger
    side of a measured image, both non-zero ([getZoom_divisor_nonzero]);
    a zero divisor, for which JavaScript answers an infinity, is mapped
    to the non-number. *)
Definition ndiv (a b : num) : num :=
  match a, b with
  | Some p, Some q => if Qeq_bool q 0 then None else Some (p / q)
  | _, _ => None
  end.

(** [a > b]: false as soon as one side is not a number. *)
Definition ngt (a b : num) : bool :=
  match a, b with
  | Some p, Some q => negb (Qle_bool p q)
  | _, _ => false
  end.

(** Truthiness of a number: [!v] is true for [0], [NaN] and [undefined]. *)
Definition truthy (v : num) : bool :=
  match v with
  | Some q => negb (Qeq_bool q 0)
  | None => false
  end.

Definition Math_max : num -> num -> num :=
  lift2 (fun p q => if Qle_bool p q then q else p).

Definition Math_min : num -> num -> num :=
  lift2 (fun p q => if Qle_bool p q then p else q).

(** Equality and order of numbers as values ([Q] has several
    representations of one rational). *)
Definition num_eq (a b : num) : Prop :=
  match a, b with
  | Some p, Some q => p == q
  | None, None => True
  | _, _ => False
  end.

Definition num_le (a b : num) : Prop :=
  match a, b with
  | Some p, Some q => p <= q
  | _, _ => False
  end.

Definition num_lt (a b : num) : Prop :=
  match a, b with
  | Some p, Some q => p < q
  | _, _ => False
  end.

Declare Scope num_scope.
Delimit Scope num_scope with num.
Infix "=n=" := num_eq (at level 70, no associativity) : num_scope.
Infix "<=n" := num_le (at level 70, no associativity) : num_scope.
Infix "<n" := num_lt (at level 70, no associativity) : num_scope.
Open Scope num_scope.

(** ** [clamp] (index.js, lines 8-10) *)

Definition clamp (value min max : num) : num :=
  Math_max (Math_min value max) min.

(** ** The state object (index.js, line 36) *)

Record Pos := mkPos { x : num; y : num }.
Record Size := mkSize { width : num; height : num }.

Record State := mkState {
  position : Pos;
  original : Size;
  container : Size;
  zoom : num
}.

(** [{}]: an object without [width] and [height]. *)
Definition emptySize : Size := mkSize None None.

(** [{ position: { x: 0, y: 0 }, original: {}, container: {}, zoom: 1 }] *)
Definition initialState : State :=
  mkState (mkPos (Some 0) (Some 0)) emptySize emptySize (Some 1).

Definition set_position (st : State) (p : Pos) : State :=
  mkState p (original st) (container st) (zoom st).
Definition set_original (st : State) (s : Size) : State :=
  mkState (position st) s (container st) (zoom st).
Definition set_container (st : State) (s : Size) : State :=
  mkState (position st) (original st) s (zoom st).
Definition set_zoom (st : State) (z : num) : State :=
  mkState (position st) (original st) (container st) z.

(** The guard shared by both handlers:
    [!state.original.width || !state.original.height]. *)
Definition unmeasured (st : State) : bool :=
  negb (truthy (width (original st))) || negb (truthy (height (original st))).

(** ** [calcPos] (index.js, lines 178-189)

    The locals [min] and [max] of [calcPos] are also given as functions
    of their own, [calcPos_min] and [calcPos_max], so that the bounds
    can be named in statements. *)

Definition calcPos_min (st : State) (originalSize containerSize : num) : num :=
  let realSize := nmul originalSize (zoom st) in
  let overflow := Math_max (nsub realSize containerSize) (Some 0) in
  let lowestValue := ndiv (nsub realSize originalSize) (Some 2) in
  nsub lowestValue overflow.

Definition calcPos_max (st : State) (originalSize containerSize : num) : num :=
  let realSize := nmul originalSize (zoom st) in
  let overflow := Math_max (nsub realSize containerSize) (Some 0) in
  let lowestValue := ndiv (nsub realSize originalSize) (Some 2) in
  let highestValue := nsub (nadd containerSize lowestValue) realSize in
  nadd highestValue overflow.

Definition calcPos (st : State) (pos originalSize containerSize : num) : num :=
  let realSize := nmul originalSize (zoom st) in
  let overflow := Math_max (nsub realSize containerSize) (Some 0) in
  let lowestValue := ndiv (nsub realSize originalSize) (Some 2) in
  let min := nsub lowestValue overflow in
  let highestValue := nsub (nadd containerSize lowestValue) realSize in
  let max := nadd highestValue overflow in
  clamp pos min max.

(** ** [getPosition] (index.js, lines 159-168) *)

Definition getPosition (st : State) (pos : Pos) : Pos :=
  if unmeasured st then pos
  else
    mkPos (calcPos st (x pos) (width (original st)) (width (container st)))
          (calcPos st (y pos) (height (original st)) (height (container st))).

(** ** [getZoom] (index.js, lines 196-216) *)

(** The anonymous function computing [min] in [getZoom]. *)
Definition getZoom_min (st : State) : num :=
  let imageSize :=
    if ngt (width (original st)) (height (original st))
    then width (original st)
    else height (original st) in
  let containerSize :=
    if ngt (width (container st)) (height (container st))
    then width (container st)
    else height (container st) in
  ndiv containerSize imageSize.

Definition getZoom (st : State) (zoom : num) : num :=
  if unmeasured st then zoom
  else Math_max zoom (getZoom_min st).

(** ** [applyState] and [setState] (index.js, lines 224-267)

    The argument of [setState] is an object: its own enumerable keys in
    insertion order, each with a value.  Of the keys only [position],
    [zoom], [original] and [container] reach the engine; an object has
    each key at most once ([wf_newState]). *)

Inductive Key := Kposition | Koriginal | Kcontainer | Kzoom.

Inductive Field :=
| Fposition (p : Pos)
| Foriginal (s : Size)
| Fcontainer (s : Size)
| Fzoom (z : num).

Definition NewState := list Field.

Definition key (f : Field) : Key :=
  match f with
  | Fposition _ => Kposition
  | Foriginal _ => Koriginal
  | Fcontainer _ => Kcontainer
  | Fzoom _ => Kzoom
  end.

Definition Key_eqb (a b : Key) : bool :=
  match a, b with
  | Kposition, Kposition | Koriginal, Koriginal
  | Kcontainer, Kcontainer | Kzoom, Kzoom => true
  | _, _ => false
  end.

Definition hasOwnProperty (newState : NewState) (k : Key) : bool :=
  existsb (fun f => Key_eqb (key f) k) newState.

Definition wf_newState (newState : NewState) : Prop :=
  NoDup (map key newState).

(** One turn of the [for (var key in newState)] loop: the handler of
    [position] and [zoom] reads the state as the earlier turns left it. *)
Definition applyField (st : State) (f : Field) : State :=
  match f with
  | Fposition p => set_position st (getPosition st p)
  | Fzoom z => set_zoom st (getZoom st z)
  | Foriginal s => set_original st s
  | Fcontainer s => set_container st s
  end.

Definition applyState (st : State) (newState : NewState) : State :=
  fold_left applyField newState st.

Definition setState (st : State) (newState : NewState) : State :=
  let st1 := applyState st newState in
  let st2 :=
    if hasOwnProperty newState Kzoom then st1
    else applyState st1 [Fzoom (zoom st1)] in
  let st3 :=
    if hasOwnProperty newState Kposition then st2
    else applyState st2 [Fposition (position st2)] in
  st3.

(** ** [update] (index.js, lines 114-126) and the rendered image

    [update] writes [translate(x px, y px) scale(zoom)] to the image's
    style; the constructor fixes [transformOrigin] to [50% 50% 0]
    (line 42) and puts the image at [top: 0; left: 0]. *)

Record Transform := mkTransform {
  translateX : num;
  translateY : num;
  scale : num
}.

Definition update (st : State) : Transform :=
  mkTransform (x (position st)) (y (position st)) (zoom st).

(** Where a point [u] of an image axis of length [s] is drawn, in
    container coordinates, under [translate(p) scale(z)] with the
    transform origin at the middle [s / 2] of the axis: the origin is
    moved to [0], the point is scaled, translated, and the origin is
    moved back. *)
Definition visual (p z s u : Q) : Q := s / 2 + (p + z * (u - s / 2)).

(** ** [getState] (index.js, lines 273-275) and object identity

    [state] is bound once to one object, which [applyState] mutates in
    place.  Objects live in a heap and are named by references; the
    closure of an instance holds the reference of its state object.  A
    [State] record in the heap is the content reachable from the state
    object; which other objects share its size and position objects is
    not described. *)

Definition ref := nat.
Definition Heap := ref -> option State.

Record Instance := mkInstance { state_ref : ref }.

Definition getState (i : Instance) : ref := state_ref i.

(** [r.field = ...] for a caller that holds the reference [r]. *)
Definition heap_write (h : Heap) (r : ref) (f : State -> State) : Heap :=
  fun r' => if Nat.eqb r' r then option_map f (h r') else h r'.

(** The state an instance works on. *)
Definition internal (i : Instance) (h : Heap) : option State := h (state_ref i).

(** [setState] as the in-place mutation of the instance's object. *)
Definition setState_heap (i : Instance) (newState : NewState) (h : Heap) : Heap :=
  heap_write h (state_ref i) (fun st => setState st newState).

(** A heap with one instance whose state object is [st]. *)
Definition singleton_heap (r : ref) (st : State) : Heap :=
  fun r' => if Nat.eqb r' r then Some st else None.

(** ** The properties the engine is meant to keep *)

(** Zoom floor: the stored zoom is at least the minimum of [getZoom]. *)
Definition zoom_floor (st : State) : Prop :=
  getZoom_min st <=n zoom st.

(** Pan containment: each stored coordinate lies between the bounds
    [calcPos] computes from the stored zoom and sizes. *)
Definition within (lo v hi : num) : Prop := lo <=n v /\ v <=n hi.

Definition pan_within (st : State) : Prop :=
  within (calcPos_min st (width (original st)) (width (container st)))
         (x (position st))
         (calcPos_max st (width (original st)) (width (container st)))
  /\
  within (calcPos_min st (height (original st)) (height (container st)))
         (y (position st))
         (calcPos_max st (height (original st)) (height (container st))).

(** Both sizes are known: four positive numbers. *)
Definition positive (v : num) : Prop := Some 0 <n v.

Definition sizes_known (st : State) : Prop :=
  positive (width (original st)) /\ positive (height (original st)) /\
  positive (width (container st)) /\ positive (height (container st)).

(** A legal state: when the image is measured, zoom and pan obey their
    rules; nothing is asked of an unmeasured image. *)
Definition legal (st : State) : Prop :=
  unmeasured st = false -> zoom_floor st /\ pan_within st.

Definition Pos_eq (p q : Pos) : Prop := x p =n= x q /\ y p =n= y q.
Definition Size_eq (s t : Size) : Prop :=
  width s =n= width t /\ height s =n= height t.

Definition State_eq (s t : State) : Prop :=
  Pos_eq (position s) (position t) /\
  Size_eq (original s) (original t) /\
  Size_eq (container s) (container t) /\
  zoom s =n= zoom t.

(** ** The pan-bound function as the specification words it *)

Module Spec.

Definition scaledSize (s z : Q) : Q := s * z.
Definition overflow (s c z : Q) : Q := Qmax (scaledSize s z - c) 0.
Definition centerOffset (s z : Q) : Q := (scaledSize s z - s) / 2.
Definition min (s c z : Q) : Q := centerOffset s z - overflow s c z.
Definition max (s c z : Q) : Q :=
  (c + centerOffset s z - scaledSize s z) + overflow s c z.

(** [v] brought into the interval from [lo] to [hi]. *)
Definition clamp (v lo hi : Q) : Q :=
  if negb (Qle_bool lo v) then lo
  else if negb (Qle_bool v hi) then hi
  else v.

Definition panBounds (axisPos s c z : Q) : Q :=
  clamp axisPos (min s c z) (max s c z).

(** [max(width, height)] and the minimum zoom. *)
Definition minZoom (iw ih cw ch : Q) : Q := Qmax cw ch / Qmax iw ih.

End Spec.

(** ** Pass-through as the specification words it

    "Whenever the image size is unset, [setState] stores the supplied
    zoom as given": with the image unset in the state before the call,
    and with the image unset in the state after it. *)
Definition pass_through_unset_before : Prop :=
  forall (st : State) (newState : NewState) (z : num),
    wf_newState newState -> unmeasured st = true ->
    In (Fzoom z) newState -> zoom (setState st newState) = z.

Definition pass_through_unset_after : Prop :=
  forall (st : State) (newState : NewState) (z : num),
    wf_newState newState -> unmeasured (setState st newState) = true ->
    In (Fzoom z) newState -> zoom (setState st newState) = z.

(** ** Concrete states *)

(** An image of 2000 by 1000 in a container of 500 by 500. *)
Definition scenario (p : Pos) (z : num) : State :=
  mkState p (mkSize (Some 2000) (Some 1000)) (mkSize (Some 500) (Some 500)) z.

(** A legal state of that scene at zoom [1]: the pan ranges are
    [-1500 .. 0] and [-500 .. 0]. *)
Definition legal_start : State :=
  scenario (mkPos (Some (-1500)) (Some (-500))) (Some 1).

(** [{ zoom: 0.25, original: { width: 1000, height: 500 } }] and the same
    object with its keys in the other order. *)
Definition zoom_then_original : NewState :=
  [Fzoom (Some (1 # 4)); Foriginal (mkSize (Some 1000) (Some 500))].
Definition original_then_zoom : NewState :=
  [Foriginal (mkSize (Some 1000) (Some 500)); Fzoom (Some (1 # 4))].

(** [{ position: { x: -1500, y: -500 }, zoom: 0.25 }] and the same object
    with its keys in the other order. *)
Definition position_then_zoom : NewState :=
  [Fposition (mkPos (Some (-1500)) (Some (-500))); Fzoom (Some (1 # 4))].
Definition zoom_then_position : NewState :=
  [Fzoom (Some (1 # 4)); Fposition (mkPos (Some (-1500)) (Some (-500)))].

(** ** Snapshot semantics of the read accessor

    What a defensive copy would give: no write through the reference
    [getState] returns changes the state the instance works on. *)
Definition snapshot_semantics : Prop :=
  forall (i : Instance) (h : Heap) (mutate : State -> State),
    internal i (heap_write h (getState i) mutate) = internal i h.

(** ** The widget: constructor, event handlers and API (index.js, lines 17-150)

    The DOM is seen through what the code reads of it: the chain of
    ancestors of the image, nearest first, each with its computed
    [position] style and its bounding rectangle; the coordinates of a
    mouse event; the scroll offsets of the window; the rectangle of the
    loaded image. *)

Record Rect := mkRect { rect_width : Q; rect_height : Q }.

(** [{ width: rect.width, height: rect.height }] *)
Definition sizeOfRect (r : Rect) : Size :=
  mkSize (Some (rect_width r)) (Some (rect_height r)).

Record Element := mkElement {
  computedPosition : string;
  boundingClientRect : Rect
}.

(** The anonymous function of lines 18-28: walk up [parentElement] until
    an element whose computed position is not ['static']. *)
Fixpoint findContainer (parents : list Element) : option Element :=
  match parents with
  | [] => None
  | parent :: rest =>
      if negb (String.eqb (computedPosition parent) "static")
      then Some parent
      else findContainer rest
  end.

(** The variables of the closure and what the handlers write to the
    image: [state], [dragging] ([None] is [null]), the [transform] style
    and the [src] attribute. *)
Record Widget := mkWidget {
  state : State;
  dragging : option Pos;
  transform : option Transform;
  src : option string
}.

(** [setState] on the closure: the state engine, then [update]. *)
Definition widget_setState (w : Widget) (newState : NewState) : Widget :=
  let st := setState (state w) newState in
  mkWidget st (dragging w) (Some (update st)) (src w).

(** [updateContainerSize] (lines 147-150), with the rectangle the
    container has when it is called. *)
Definition updateContainerSize (w : Widget) (rect : Rect) : Widget :=
  widget_setState w [Fcontainer (sizeOfRect rect)].

(** [load] (lines 133-140). *)
Definition load (w : Widget) (url : string) : Widget :=
  mkWidget (set_original (state w) emptySize) (dragging w) (transform w) (Some url).

(** [onload] (lines 98-108).  The handler reads [event.path[0]] and
    measures it; [path] is the list of the rectangles of the elements of
    [event.path], or [None] when the event has no [path].  Without a
    path, or with an empty one, the read throws a [TypeError] before
    anything is stored: the handler gives [None]. *)
Definition onload (w : Widget) (path : option (list Rect)) : option Widget :=
  match path with
  | Some (target :: _) => Some (widget_setState w [Foriginal (sizeOfRect target)])
  | _ => None
  end.

(** [onmousedown] (lines 86-91). *)
Definition onmousedown (w : Widget) (event_x event_y : Q) : Widget :=
  mkWidget (state w)
           (Some (mkPos (nsub (Some event_x) (x (position (state w))))
                        (nsub (Some event_y) (y (position (state w))))))
           (transform w) (src w).

(** [onmousemove] (lines 57-73). *)
Definition onmousemove (w : Widget) (event_x event_y pageXOffset pageYOffset : Q)
  : Widget :=
  match dragging w with
  | None => w
  | Some d =>
      let mousePos := mkPos (nadd (Some event_x) (Some pageXOffset))
                            (nadd (Some event_y) (Some pageYOffset)) in
      let newPosition := mkPos (nsub (x mousePos) (x d))
                               (nsub (y mousePos) (y d)) in
      widget_setState w [Fposition newPosition]
  end.

(** [onmouseup] (lines 78-80). *)
Definition onmouseup (w : Widget) : Widget :=
  mkWidget (state w) None (transform w) (src w).

(** [rogneur] (lines 17-51): [None] when no ancestor is positioned (the
    function logs an error and returns nothing), otherwise the widget
    after the call of [updateContainerSize] that ends the set-up. *)
Definition rogneur (parents : list Element) : option Widget :=
  match findContainer parents with
  | None => None
  | Some container =>
      Some (updateContainerSize (mkWidget initialState None None None)
                                (boundingClientRect container))
  end.

(** What can happen to a widget: the events it listens to and the calls
    of its API.  An exception thrown by a listener leaves the variables
    of the closure as they were. *)
Inductive Event :=
| MouseDown (event_x event_y : Q)
| MouseMove (event_x event_y pageXOffset pageYOffset : Q)
| MouseUp
| ImageLoad (path : option (list Rect))
| CallLoad (url : string)
| CallUpdateContainerSize (rect : Rect)
| CallSetState (newState : NewState).

Definition step (w : Widget) (e : Event) : Widget :=
  match e with
  | MouseDown ex ey => onmousedown w ex ey
  | MouseMove ex ey ox oy => onmousemove w ex ey ox oy
  | MouseUp => onmouseup w
  | ImageLoad path =>
      match onload w path with Some w' => w' | None => w end
  | CallLoad url => load w url
  | CallUpdateContainerSize rect => updateContainerSize w rect
  | CallSetState newState => widget_setState w newState
  end.

Definition run (w : Widget) (events : list Event) : Widget :=
  fold_left step events w.

(** ** Calls that keep the rules *)

(** Zoom, pan and container size are numbers. *)
Definition numeric_pos (p : Pos) : Prop :=
  exists px py, p = mkPos (Some px) (Some py).
Definition numeric_size (s : Size) : Prop :=
  exists w h, s = mkSize (Some w) (Some h).

Definition numeric (st : State) : Prop :=
  (exists z, zoom st = Some z) /\
  numeric_pos (position st) /\
  numeric_size (container st).

(** An image size or a container size given as numbers. *)
Definition size_field (f : Field) : Prop :=
  match f with
  | Foriginal _ => True
  | Fcontainer s => numeric_size s
  | _ => False
  end.

(** Objects that list their sizes first, then the zoom, then the pan,
    where a pan that follows sizes comes with a zoom; and the object
    with a pan alone. *)
Inductive ordered_call : NewState -> Prop :=
| ordered_sizes sizes :
    Forall size_field sizes -> ordered_call sizes
| ordered_zoom sizes z :
    Forall size_field sizes -> ordered_call (sizes ++ [Fzoom (Some z)])
| ordered_zoom_position sizes z px py :
    Forall size_field sizes ->
    ordered_call (sizes ++ [Fzoom (Some z); Fposition (mkPos (Some px) (Some py))]).

(** The events under which the rules are kept: every event of the DOM,
    [load], [updateContainerSize], and [setState] with an ordered object
    or with a pan alone. *)
Definition safe_event (e : Event) : Prop :=
  match e with
  | CallSetState newState =>
      ordered_call newState \/
      exists px py, newState = [Fposition (mkPos (Some px) (Some py))]
  | _ => True
  end.

(** The invariant of a widget: numbers, a legal state, the style of the
    image in step with the state, and a numeric anchor while dragging. *)
Definition widget_ok (w : Widget) : Prop :=
  numeric (state w) /\ legal (state w) /\
  transform w = Some (update (state w)) /\
  (forall d, dragging w = Some d -> numeric_pos d).

(** ** Drags

    Two widgets in the same drag, with the same sizes and zoom; and the
    events that are moves of the mouse. *)
Definition same_drag (w1 w2 : Widget) : Prop :=
  dragging w1 = dragging w2 /\
  original (state w1) = original (state w2) /\
  container (state w1) = container (state w2) /\
  zoom (state w1) =n= zoom (state w2).

Definition is_move (e : Event) : Prop :=
  match e with MouseMove _ _ _ _ => True | _ => False end.

(** ** A concrete page

    An image whose parent is static and whose grandparent is positioned
    and measures 500 by 500; the widget built on it, the widget once an
    image of 2000 by 1000 has loaded, and the same widget after a press
    at [(10, 10)]. *)
Definition demo_parents : list Element :=
  [mkElement "static" (mkRect 800 600); mkElement "relative" (mkRect 500 500)].

Definition demo_widget : Widget :=
  updateContainerSize (mkWidget initialState None None None) (mkRect 500 500).

Definition demo_loaded : Widget :=
  run demo_widget [ImageLoad (Some [mkRect 2000 1000])].

Definition demo_dragging : Widget :=
  run demo_loaded [MouseDown 10 10].

(** * The engine in binary64

    The embedding above computes with exact rationals.  The numbers of
    the code are IEEE 754 binary64 values, and what depends on rounding
    is stated on a second embedding of the same functions, over the
    binary64 numbers of the standard library's specification of floating
    point ([spec_float] with a precision of 53 bits: signed zeros,
    infinities, [NaN], round to nearest even).  As before [NaN] also
    stands for [undefined]. *)

Module B64.

Definition prec : Z := 53.
Definition emax : Z := 1024.

Definition num := spec_float.
Definition NaN : num := S754_nan.

(** The number literal of an integer. *)
Definition of_Z (z : Z) : num := binary_normalize prec emax z 0 false.

Definition nadd : num -> num -> num := SFadd prec emax.
Definition nsub : num -> num -> num := SFsub prec emax.
Definition nmul : num -> num -> num := SFmul prec emax.
Definition ndiv : num -> num -> num := SFdiv prec emax.

Definition is_nan (v : num) : bool :=
  match v with S754_nan => true | _ => false end.
Definition is_zero (v : num) : bool :=
  match v with S754_zero _ => true | _ => false end.
Definition is_neg_zero (v : num) : bool :=
  match v with S754_zero true => true | _ => false end.

(** [a > b], [a < b] and [a <= b]: false as soon as one side is [NaN]. *)
Definition ngt (a b : num) : bool := SFltb b a.
Definition nlt (a b : num) : bool := SFltb a b.
Definition nle (a b : num) : bool := SFleb a b.

(** [!v] is true for [0], [-0], [NaN] and [undefined]. *)
Definition truthy (v : num) : bool := negb (is_nan v || is_zero v).

(** [Math.max] and [Math.min]: [NaN] if an argument is [NaN]; [+0] is
    larger than [-0]. *)
Definition Math_max (a b : num) : num :=
  if is_nan a || is_nan b then NaN
  else if SFltb a b then b
  else if SFltb b a then a
  else if is_neg_zero a then b else a.

Definition Math_min (a b : num) : num :=
  if is_nan a || is_nan b then NaN
  else if SFltb a b then a
  else if SFltb b a then b
  else if is_neg_zero b then b else a.

(** [clamp] (index.js, lines 8-10) *)
Definition clamp (value min max : num) : num :=
  Math_max (Math_min value max) min.

Record Pos := mkPos { x : num; y : num }.
Record Size := mkSize { width : num; height : num }.

Record State := mkState {
  position : Pos;
  original : Size;
  container : Size;
  zoom : num
}.

Definition emptySize : Size := mkSize NaN NaN.

Definition initialState : State :=
  mkState (mkPos (of_Z 0) (of_Z 0)) emptySize emptySize (of_Z 1).

Definition set_position (st : State) (p : Pos) : State :=
  mkState p (original st) (container st) (zoom st).
Definition set_original (st : State) (s : Size) : State :=
  mkState (position st) s (container st) (zoom st).
Definition set_container (st : State) (s : Size) : State :=
  mkState (position st) (original st) s (zoom st).
Definition set_zoom (st : State) (z : num) : State :=
  mkState (position st) (original st) (container st) z.

Definition unmeasured (st : State) : bool :=
  negb (truthy (width (original st))) || negb (truthy (height (original st))).

(** [calcPos] (index.js, lines 178-189), with its locals [min] and [max]
    also as functions of their own. *)
Definition calcPos_min (st : State) (originalSize containerSize : num) : num :=
  let realSize := nmul originalSize (zoom st) in
  let overflow := Math_max (nsub realSize containerSize) (of_Z 0) in
  let lowestValue := ndiv (nsub realSize originalSize) (of_Z 2) in
  nsub lowestValue overflow.

Definition calcPos_max (st : State) (originalSize containerSize : num) : num :=
  let realSize := nmul originalSize (zoom st) in
  let overflow := Math_max (nsub realSize containerSize) (of_Z 0) in
  let lowestValue := ndiv (nsub realSize originalSize) (of_Z 2) in
  let highestValue := nsub (nadd containerSize lowestValue) realSize in
  nadd highestValue overflow.

Definition calcPos (st : State) (pos originalSize containerSize : num) : num :=
  let realSize := nmul originalSize (zoom st) in
  let overflow := Math_max (nsub realSize containerSize) (of_Z 0) in
  let lowestValue := ndiv (nsub realSize originalSize) (of_Z 2) in
  let min := nsub lowestValue overflow in
  let highestValue := nsub (nadd containerSize lowestValue) realSize in
  let max := nadd highestValue overflow in
  clamp pos min max.

(** [getPosition] (index.js, lines 159-168) *)
Definition getPosition (st : State) (pos : Pos) : Pos :=
  if unmeasured st then pos
  else
    mkPos (calcPos st (x pos) (width (original st)) (width (container st)))
          (calcPos st (y pos) (height (original st)) (height (container st))).

(** [getZoom] (index.js, lines 196-216) *)
Definition getZoom_min (st : State) : num :=
  let imageSize :=
    if ngt (width (original st)) (height (original st))
    then width (original st)
    else height (original st) in
  let containerSize :=
    if ngt (width (container st)) (height (container st))
    then width (container st)
    else height (container st) in
  ndiv containerSize imageSize.

Definition getZoom (st : State) (zoom : num) : num :=
  if unmeasured st then zoom
  else Math_max zoom (getZoom_min st).

(** [applyState] and [setState] (index.js, lines 224-267) *)
Inductive Field :=
| Fposition (p : Pos)
| Foriginal (s : Size)
| Fcontainer (s : Size)
| Fzoom (z : num).

Definition NewState := list Field.

Definition key (f : Field) : Key :=
  match f with
  | Fposition _ => Kposition
  | Foriginal _ => Koriginal
  | Fcontainer _ => Kcontainer
  | Fzoom _ => Kzoom
  end.

Definition hasOwnProperty (newState : NewState) (k : Key) : bool :=
  existsb (fun f => Key_eqb (key f) k) newState.

Definition applyField (st : State) (f : Field) : State :=
  match f with
  | Fposition p => set_position st (getPosition st p)
  | Fzoom z => set_zoom st (getZoom st z)
  | Foriginal s => set_original st s
  | Fcontainer s => set_container st s
  end.

Definition applyState (st : State) (newState : NewState) : State :=
  fold_left applyField newState st.

Definition setState (st : State) (newState : NewState) : State :=
  let st1 := applyState st newState in
  let st2 :=
    if hasOwnProperty newState Kzoom then st1
    else applyState st1 [Fzoom (zoom st1)] in
  let st3 :=
    if hasOwnProperty newState Kposition then st2
    else applyState st2 [Fposition (position st2)] in
  st3.

(** The state the handlers leave as it is: the zoom handler returns the
    stored zoom and the pan handler the stored pan. *)
Definition stable (st : State) : Prop :=
  getZoom st (zoom st) = zoom st /\
  getPosition st (position st) = position st.

(** An image of [iw] by [ih] in a container of [cw] by [ch], at the
    zoom [z] and the pan [(0, 0)]. *)
Definition scene (iw ih cw ch z : num) : State :=
  mkState (mkPos (of_Z 0) (of_Z 0)) (mkSize iw ih) (mkSize cw ch) z.

(** The order behind [Math.max] and [Math.min]: [a] is below [b] when
    it is smaller, or when it is [-0] and [b] is [+0]. *)
Definition below (a b : num) : bool :=
  SFltb a b || (SFeqb a b && is_neg_zero a && negb (is_neg_zero b)).

(** An object that lists its size fields first, then a zoom, then a
    pan, where a pan that follows comes with a zoom. *)
Definition size_field (f : Field) : Prop :=
  match f with
  | Foriginal _ | Fcontainer _ => True
  | _ => False
  end.

Inductive ordered_call : NewState -> Prop :=
| ordered_sizes sizes :
    Forall size_field sizes -> ordered_call sizes
| ordered_zoom sizes z :
    Forall size_field sizes -> ordered_call (sizes ++ [Fzoom z])
| ordered_zoom_position sizes z p :
    Forall size_field sizes ->
    ordered_call (sizes ++ [Fzoom z; Fposition p]).

(** In a stable state with a measured image: the zoom, when a number,
    is at or above the floor; a pan coordinate that is a number between
    numeric bounds is never below [min], and is at most [max] whenever
    the computed bounds do not cross. *)
Definition zoom_floor (st : State) : Prop :=
  is_nan (zoom st) = false -> nle (getZoom_min st) (zoom st) = true.

Definition axis_clamped (lo v hi : num) : Prop :=
  is_nan v = false -> is_nan lo = false -> is_nan hi = false ->
  nle lo v = true /\ (nle lo hi = true -> nle v hi = true).

Definition pan_clamped (st : State) : Prop :=
  axis_clamped (calcPos_min st (width (original st)) (width (container st)))
               (x (position st))
               (calcPos_max st (width (original st)) (width (container st)))
  /\
  axis_clamped (calcPos_min st (height (original st)) (height (container st)))
               (y (position st))
               (calcPos_max st (height (original st)) (height (container st))).

(** The widget (index.js, lines 17-150), as in the embedding over the
    rationals; a rectangle is seen through its width and height. *)
Record Transform := mkTransform {
  translateX : num;
  translateY : num;
  scale : num
}.

Definition update (st : State) : Transform :=
  mkTransform (x (position st)) (y (position st)) (zoom st).

Record Widget := mkWidget {
  state : State;
  dragging : option Pos;
  transform : option Transform;
  src : option string
}.

Definition widget_setState (w : Widget) (newState : NewState) : Widget :=
  let st := setState (state w) newState in
  mkWidget st (dragging w) (Some (update st)) (src w).

Definition updateContainerSize (w : Widget) (rect : Size) : Widget :=
  widget_setState w [Fcontainer rect].

Definition load (w : Widget) (url : string) : Widget :=
  mkWidget (set_original (state w) emptySize) (dragging w) (transform w) (Some url).

(** [onload] reads [event.path[0]]: without a [path], or with an empty
    one, it throws before anything is stored ([None]). *)
Definition onload (w : Widget) (path : option (list Size)) : option Widget :=
  match path with
  | Some (target :: _) => Some (widget_setState w [Foriginal target])
  | _ => None
  end.

Definition onmousedown (w : Widget) (event_x event_y : num) : Widget :=
  mkWidget (state w)
           (Some (mkPos (nsub event_x (x (position (state w))))
                        (nsub event_y (y (position (state w))))))
           (transform w) (src w).

Definition onmousemove (w : Widget) (event_x event_y pageXOffset pageYOffset : num)
  : Widget :=
  match dragging w with
  | None => w
  | Some d =>
      let mousePos := mkPos (nadd event_x pageXOffset)
                            (nadd event_y pageYOffset) in
      let newPosition := mkPos (nsub (x mousePos) (x d))
                               (nsub (y mousePos) (y d)) in
      widget_setState w [Fposition newPosition]
  end.

Definition onmouseup (w : Widget) : Widget :=
  mkWidget (state w) None (transform w) (src w).

(** The widget as [rogneur] returns it, for the rectangle of the
    container it found. *)
Definition constructed (rect : Size) : Widget :=
  updateContainerSize (mkWidget initialState None None None) rect.

Inductive Event :=
| MouseDown (event_x event_y : num)
| MouseMove (event_x event_y pageXOffset pageYOffset : num)
| MouseUp
| ImageLoad (path : option (list Size))
| CallLoad (url : string)
| CallUpdateContainerSize (rect : Size)
| CallSetState (newState : NewState).

Definition step (w : Widget) (e : Event) : Widget :=
  match e with
  | MouseDown ex ey => onmousedown w ex ey
  | MouseMove ex ey ox oy => onmousemove w ex ey ox oy
  | MouseUp => onmouseup w
  | ImageLoad path =>
      match onload w path with Some w' => w' | None => w end
  | CallLoad url => load w url
  | CallUpdateContainerSize rect => updateContainerSize w rect
  | CallSetState newState => widget_setState w newState
  end.

Definition run (w : Widget) (events : list Event) : Widget :=
  fold_left step events w.

Definition safe_event (e : Event) : Prop :=
  match e with
  | CallSetState newState =>
      ordered_call newState \/ exists p, newState = [Fposition p]
  | _ => True
  end.

Definition widget_ok (w : Widget) : Prop :=
  stable (state w) /\ transform w = Some (update (state w)).

(** A pan of [-1145.3] in a widget whose image is not measured. *)
Definition fractional_pan : Widget :=
  mkWidget (mkState (mkPos (ndiv (of_Z (-11453)) (of_Z 10)) (of_Z 0))
                    emptySize (mkSize (of_Z 500) (of_Z 500)) (of_Z 1))
           None
           (Some (mkTransform (ndiv (of_Z (-11453)) (of_Z 10)) (of_Z 0) (of_Z 1)))
           None.

(** The container width 102.1 and the scene in which the bounds of the
    x axis cross: an image of 50 by 20 in a container of 102.1 by 60 at
    the zoom floor 102.1 / 50. *)
Definition c102_1 : num := ndiv (of_Z 1021) (of_Z 10).

Definition crossing : State :=
  scene (of_Z 50) (of_Z 20) c102_1 (of_Z 60) (ndiv c102_1 (of_Z 50)).

(** The claim that the bounds of [calcPos] never cross: for numbers
    [pos], [s >= 0], [c >= 0] and [z >= 0] the computed [min] is at most
    the computed [max] and the returned value lies between them. *)
Definition range_never_empty : Prop :=
  forall (st : State) (pos s c : num),
    is_nan pos = false ->
    nle (of_Z 0) s = true -> nle (of_Z 0) c = true ->
    nle (of_Z 0) (zoom st) = true ->
    nle (calcPos_min st s c) (calcPos_max st s c) = true /\
    nle (calcPos_min st s c) (calcPos st pos s c) = true /\
    nle (calcPos st pos s c) (calcPos_max st s c) = true.

End B64.

(** The order of binary64 numbers through a key: the sign class, then
    the exponent, then the mantissa. *)
Definition float_key (f : spec_float) : Z * Z * Z :=
  match f with
  | S754_infinity true => (-2, 0, 0)
  | S754_finite true m e => (-1, - e, - Zpos m)
  | S754_zero _ => (0, 0, 0)
  | S754_nan => (0, 0, 0)
  | S754_finite false m e => (1, e, Zpos m)
  | S754_infinity false => (2, 0, 0)
  end%Z.

Definition key_lt (k1 k2 : Z * Z * Z) : Prop :=
  let '(a1, a2, a3) := k1 in
  let '(b1, b2, b3) := k2 in
  (a1 < b1 \/ (a1 = b1 /\ (a2 < b2 \/ (a2 = b2 /\ a3 < b3))))%Z.

(** What [Math.max] and [Math.min] return, by the comparison of their
    arguments. *)
Inductive max_cases (a b : spec_float) : spec_float -> Prop :=
| max_nan : B64.is_nan a || B64.is_nan b = true -> max_cases a b B64.NaN
| max_lt : B64.is_nan a = false -> B64.is_nan b = false ->
    SFcompare a b = Some Lt -> max_cases a b b
| max_gt : B64.is_nan a = false -> B64.is_nan b = false ->
    SFcompare a b = Some Gt -> max_cases a b a
| max_eq : B64.is_nan a = false -> B64.is_nan b = false ->
    SFcompare a b = Some Eq ->
    max_cases a b (if B64.is_neg_zero a then b else a).

Inductive min_cases (a b : spec_float) : spec_float -> Prop :=
| min_nan : B64.is_nan a || B64.is_nan b = true -> min_cases a b B64.NaN
| min_lt : B64.is_nan a = false -> B64.is_nan b = false ->
    SFcompare a b = Some Lt -> min_cases a b a
| min_gt : B64.is_nan a = false -> B64.is_nan b = false ->
    SFcompare a b = Some Gt -> min_cases a b b
| min_eq : B64.is_nan a = false -> B64.is_nan b = false ->
    SFcompare a b = Some Eq ->
    min_cases a b (if B64.is_neg_zero b then b else a).

(** * Properties *)

(** ** Numbers *)

Lemma Qle_bool_false (a b : Q) : Qle_bool a b = false <-> b < a.
Proof.
  split; intro H.
  - apply Qnot_le_lt. intro L. apply Qle_bool_iff in L. congruence.
  - apply not_true_iff_false. intro L. apply Qle_bool_iff in L. lra.
Qed.

Lemma Qeq_bool_false (a b : Q) : Qeq_bool a b = false <-> ~ a == b.
Proof.
  split; intro H.
  - intro E. apply Qeq_bool_iff in E. congruence.
  - apply not_true_iff_false. intro E. apply Qeq_bool_iff in E. tauto.
Qed.

(** Case analysis on every comparison of the goal. *)
Ltac qcases :=
  repeat match goal with
  | |- context [Qle_bool ?a ?b] =>
      lazymatch a with context [Qle_bool] => fail | _ => idtac end;
      lazymatch b with context [Qle_bool] => fail | _ => idtac end;
      let E := fresh "E" in
      destruct (Qle_bool a b) eqn:E;
      [ apply Qle_bool_iff in E | apply Qle_bool_false in E ];
      try (exfalso; lra)
  | |- context [Qeq_bool ?a ?b] =>
      let E := fresh "E" in
      destruct (Qeq_bool a b) eqn:E;
      [ apply Qeq_bool_iff in E | apply Qeq_bool_false in E ];
      try (exfalso; lra)
  end.

(** Unfolding of the arithmetic on numbers, without touching [Q]. *)
Ltac unfold_num :=
  cbv beta iota delta
    [nadd nsub nmul ndiv ngt truthy Math_max Math_min clamp lift2
     num_eq num_le num_lt within positive].

Lemma num_eq_refl (a : num) : a =n= a.
Proof. destruct a; simpl; [reflexivity | exact I]. Qed.

Lemma num_eq_sym (a b : num) : a =n= b -> b =n= a.
Proof. destruct a, b; simpl; auto. intro H. symmetry. exact H. Qed.

Lemma num_eq_trans (a b c : num) : a =n= b -> b =n= c -> a =n= c.
Proof.
  destruct a, b, c; simpl; auto; try tauto.
  intros H1 H2. rewrite H1. exact H2.
Qed.

Lemma num_le_some (a b : num) :
  a <=n b -> exists p q, a = Some p /\ b = Some q /\ p <= q.
Proof. destruct a, b; simpl; try tauto. intro H. eauto. Qed.

Lemma Math_max_some (p q : Q) :
  exists r, Math_max (Some p) (Some q) = Some r /\
            p <= r /\ q <= r /\ (r = p \/ r = q).
Proof.
  unfold Math_max, lift2. qcases; eexists; split; try reflexivity;
    repeat split; auto; lra.
Qed.

Lemma Math_max_ge (p q : Q) :
  q <= p -> Math_max (Some p) (Some q) =n= Some p.
Proof. intro H. unfold Math_max, lift2. qcases; simpl; lra. Qed.

Lemma clamp_some (v lo hi : Q) :
  exists r, clamp (Some v) (Some lo) (Some hi) = Some r /\
            (lo <= hi -> lo <= r <= hi) /\
            (lo <= v <= hi -> r == v) /\
            (lo <= hi -> v <= lo -> r == lo) /\
            (lo <= hi -> hi <= v -> r == hi).
Proof.
  unfold clamp, Math_max, Math_min, lift2.
  qcases; eexists; (split; [reflexivity | repeat split; intros; lra]).
Qed.

(** The bounds of [calcPos] in closed form. *)
Lemma calcPos_min_some (st : State) (s c z : Q) :
  zoom st = Some z ->
  exists lo, calcPos_min st (Some s) (Some c) = Some lo /\
             lo == Spec.min s c z.
Proof.
  intro Hz. unfold calcPos_min, Spec.min, Spec.centerOffset, Spec.overflow,
    Spec.scaledSize. rewrite Hz. unfold_num.
  destruct (Q.max_spec (s * z - c) 0) as [[H1 H2] | [H1 H2]];
    qcases; eexists; (split; [reflexivity | lra]).
Qed.

Lemma calcPos_max_some (st : State) (s c z : Q) :
  zoom st = Some z ->
  exists hi, calcPos_max st (Some s) (Some c) = Some hi /\
             hi == Spec.max s c z.
Proof.
  intro Hz. unfold calcPos_max, Spec.max, Spec.centerOffset, Spec.overflow,
    Spec.scaledSize. rewrite Hz. unfold_num.
  destruct (Q.max_spec (s * z - c) 0) as [[H1 H2] | [H1 H2]];
    qcases; eexists; (split; [reflexivity | lra]).
Qed.

Lemma calcPos_clamp (st : State) (pos s c : num) :
  calcPos st pos s c = clamp pos (calcPos_min st s c) (calcPos_max st s c).
Proof. reflexivity. Qed.

(** The interval is never empty: its width is the distance between the
    scaled image and the container. *)
Lemma Spec_min_le_max (s c z : Q) : Spec.min s c z <= Spec.max s c z.
Proof.
  unfold Spec.min, Spec.max, Spec.centerOffset, Spec.overflow, Spec.scaledSize.
  destruct (Q.max_spec (s * z - c) 0) as [[H1 H2] | [H1 H2]]; lra.
Qed.

Lemma calcPos_some (st : State) (pos s c z : Q) :
  zoom st = Some z ->
  exists r, calcPos st (Some pos) (Some s) (Some c) = Some r /\
            Spec.min s c z <= r <= Spec.max s c z /\
            r == Spec.panBounds pos s c z.
Proof.
  intro Hz. rewrite calcPos_clamp.
  destruct (calcPos_min_some st s c z Hz) as (lo & -> & Hlo).
  destruct (calcPos_max_some st s c z Hz) as (hi & -> & Hhi).
  destruct (clamp_some pos lo hi) as (r & -> & Hin & Hid & Hlow & Hhigh).
  pose proof (Spec_min_le_max s c z) as Hle.
  exists r. split; [reflexivity|]. split; [lra|].
  unfold Spec.panBounds, Spec.clamp.
  revert Hle Hlo Hhi.
  generalize (Spec.min s c z) (Spec.max s c z). intros m M Hle Hlo Hhi.
  qcases; simpl.
  - apply Hid. lra.
  - rewrite Hhigh; lra.
  - rewrite Hlow; lra.
Qed.

(** ** The pan-bound function *)



(** ** Coverage of the container *)

Lemma visual_ends (p z s : Q) :
  visual p z s 0 == p - Spec.centerOffset s z /\
  visual p z s s == p - Spec.centerOffset s z + s * z.
Proof.
  unfold visual, Spec.centerOffset, Spec.scaledSize. split; field.
Qed.



(** ** Idempotence *)

Lemma calcPos_min_inv (st : State) (s c : num) (lo : Q) :
  calcPos_min st s c = Some lo ->
  exists s' c' z, s = Some s' /\ c = Some c' /\ zoom st = Some z.
Proof.
  unfold calcPos_min. destruct s as [s'|], c as [c'|], (zoom st) as [z|];
    cbn; try discriminate; eauto 10.
Qed.

Lemma Spec_bounds_compat (s c z z' : Q) :
  z' == z ->
  Spec.min s c z' == Spec.min s c z /\ Spec.max s c z' == Spec.max s c z.
Proof.
  intro Hz.
  unfold Spec.min, Spec.max, Spec.overflow, Spec.centerOffset, Spec.scaledSize.
  rewrite Hz. split; reflexivity.
Qed.

(** A coordinate inside the bounds of one state is returned as it is by
    [calcPos] in every state with the same zoom. *)
Lemma calcPos_fix (st st' : State) (v s c : num) :
  zoom st' =n= zoom st ->
  within (calcPos_min st s c) v (calcPos_max st s c) ->
  calcPos st' v s c =n= v.
Proof.
  intros Hz [Hlo Hhi].
  apply num_le_some in Hlo. destruct Hlo as (lo & p & Elo & -> & Hlo).
  apply num_le_some in Hhi. destruct Hhi as (p' & hi & Ep & Ehi & Hhi).
  injection Ep as <-.
  destruct (calcPos_min_inv _ _ _ _ Elo) as (s' & c' & z & -> & -> & Ez).
  rewrite Ez in Hz. destruct (zoom st') as [z'|] eqn:Ez'; [|contradiction].
  simpl in Hz.
  destruct (calcPos_min_some st s' c' z Ez) as (lo1 & E1 & Hlo1).
  destruct (calcPos_max_some st s' c' z Ez) as (hi1 & E2 & Hhi1).
  rewrite Elo in E1. injection E1 as <-.
  rewrite Ehi in E2. injection E2 as <-.
  destruct (calcPos_some st' p s' c' z' Ez') as (r & -> & _ & Hr).
  destruct (Spec_bounds_compat s' c' z z' Hz) as [Cm CM].
  simpl. rewrite Hr. unfold Spec.panBounds, Spec.clamp.
  qcases; simpl; lra.
Qed.

Lemma getZoom_fix (st : State) :
  unmeasured st = false -> zoom_floor st -> getZoom st (zoom st) =n= zoom st.
Proof.
  intros Hm Hf. unfold getZoom. rewrite Hm.
  apply num_le_some in Hf. destruct Hf as (m & z & -> & -> & Hle).
  apply Math_max_ge. exact Hle.
Qed.

Lemma unmeasured_set_zoom (st : State) (z : num) :
  unmeasured (set_zoom st z) = unmeasured st.
Proof. reflexivity. Qed.

Lemma State_eq_refl (st : State) : State_eq st st.
Proof.
  repeat split; apply num_eq_refl.
Qed.

(** C6.  Idempotence: in a legal state (zoom and both pan coordinates
    obey their clamping rules for the current sizes) [setState] with an
    object without fields leaves pan, zoom, image size and container
    size unchanged; and the zoom handler and the pan handler, applied to
    the stored zoom and pan, return them. *)
Theorem setState_empty_idempotent (st : State) :
  legal st ->
  State_eq (setState st []) st /\
  getZoom st (zoom st) =n= zoom st /\
  Pos_eq (getPosition st (position st)) (position st).
Proof.
  intro Hlegal. unfold setState, applyState. cbn [hasOwnProperty existsb fold_left applyField].
  destruct (unmeasured st) eqn:Hm.
  - unfold getZoom, getPosition. cbn [position set_zoom].
    rewrite unmeasured_set_zoom, Hm.
    repeat split; apply num_eq_refl.
  - destruct (Hlegal Hm) as [Hfloor [Hx Hy]].
    pose proof (getZoom_fix st Hm Hfloor) as Hz.
    assert (Hp : forall st', zoom st' =n= zoom st ->
                 unmeasured st' = false ->
                 original st' = original st -> container st' = container st ->
                 Pos_eq (getPosition st' (position st)) (position st)).
    { intros st' Hz' Hm' Ho Hc. unfold getPosition. rewrite Hm', Ho, Hc.
      split; cbn [x y]; apply (calcPos_fix st); assumption. }
    split; [|split].
    + unfold State_eq. cbn [position original container zoom set_position set_zoom].
      split; [|repeat split; try apply num_eq_refl; apply Hz].
      apply Hp; try reflexivity; [exact Hz | exact Hm].
    + exact Hz.
    + apply Hp; try reflexivity; [apply num_eq_refl | exact Hm].
Qed.

Lemma setState_empty_idempotent_witness :
  State_eq (setState (scenario (mkPos (Some (-750)) (Some (-200))) (Some (1 # 4))) [])
           (scenario (mkPos (Some (-750)) (Some (-200))) (Some (1 # 4))) /\
  getZoom (scenario (mkPos (Some (-750)) (Some (-200))) (Some (1 # 4))) (Some (1 # 4))
    =n= Some (1 # 4) /\
  Pos_eq (getPosition (scenario (mkPos (Some (-750)) (Some (-200))) (Some (1 # 4)))
                      (mkPos (Some (-750)) (Some (-200))))
         (mkPos (Some (-750)) (Some (-200))).
Proof.
  apply (setState_empty_idempotent
           (scenario (mkPos (Some (-750)) (Some (-200))) (Some (1 # 4)))).
  intros _. unfold zoom_floor, pan_within, within.
  repeat split; vm_compute; discriminate.
Defined.

(** ** An unmeasured image *)

Lemma hasOwnProperty_false (newState : NewState) (k : Key) :
  hasOwnProperty newState k = false ->
  forall f, In f newState -> key f <> k.
Proof.
  unfold hasOwnProperty. induction newState as [|g rest IH]; cbn.
  - intros _ f [].
  - intros H f [<-|Hin]; apply orb_false_iff in H; destruct H as [Hg Hrest].
    + intros <-. destruct g; discriminate.
    + apply IH; assumption.
Qed.

Lemma hasOwnProperty_notin (newState : NewState) (k : Key) :
  ~ In k (map key newState) -> hasOwnProperty newState k = false.
Proof.
  unfold hasOwnProperty. induction newState as [|g rest IH]; cbn.
  - reflexivity.
  - intro H. apply orb_false_iff. split.
    + destruct (Key_eqb (key g) k) eqn:E; [|reflexivity].
      exfalso. apply H. left. destruct (key g), k; try discriminate; reflexivity.
    + apply IH. tauto.
Qed.

(** Fields that are not listed keep their value through the loop. *)
Lemma applyState_frame (newState : NewState) (st : State) :
  (hasOwnProperty newState Kzoom = false ->
     zoom (applyState st newState) = zoom st) /\
  (hasOwnProperty newState Kposition = false ->
     position (applyState st newState) = position st) /\
  (hasOwnProperty newState Koriginal = false ->
     original (applyState st newState) = original st) /\
  (hasOwnProperty newState Kcontainer = false ->
     container (applyState st newState) = container st).
Proof.
  revert st. unfold applyState, hasOwnProperty.
  induction newState as [|f rest IH]; intro st; cbn [fold_left existsb].
  - auto.
  - destruct (IH (applyField st f)) as (Iz & Ip & Io & Ic).
    repeat split; intro H; apply orb_false_iff in H; destruct H as [Hf Hr];
      destruct f; try discriminate;
      first [ rewrite (Iz Hr) | rewrite (Ip Hr) | rewrite (Io Hr) | rewrite (Ic Hr) ];
      reflexivity.
Qed.

(** While the image stays unmeasured the loop stores zoom and position
    as they are given. *)
Lemma applyState_unmeasured (newState : NewState) (st : State) :
  wf_newState newState ->
  unmeasured st = true ->
  (forall s, In (Foriginal s) newState -> unmeasured (set_original st s) = true) ->
  unmeasured (applyState st newState) = true /\
  (forall z, In (Fzoom z) newState -> zoom (applyState st newState) = z) /\
  (forall p, In (Fposition p) newState -> position (applyState st newState) = p).
Proof.
  revert st. unfold wf_newState.
  induction newState as [|f rest IH]; intros st Hwf Hm Ho.
  - cbn. repeat split; [assumption | intros ? [] | intros ? []].
  - cbn [map] in Hwf. apply NoDup_cons_iff in Hwf. destruct Hwf as [Hnotin Hwf].
    assert (Hm' : unmeasured (applyField st f) = true).
    { destruct f; cbn; try exact Hm. apply (Ho s). left. reflexivity. }
    assert (Ho' : forall s, In (Foriginal s) rest ->
                            unmeasured (set_original (applyField st f) s) = true).
    { intros s Hs. apply (Ho s). right. exact Hs. }
    destruct (IH (applyField st f) Hwf Hm' Ho') as (I1 & I2 & I3).
    change (applyState st (f :: rest)) with (applyState (applyField st f) rest).
    split; [exact I1|]. split.
    + intros z [->|Hin]; [|apply I2; exact Hin].
      destruct (applyState_frame rest (applyField st (Fzoom z))) as (Fz & _).
      rewrite Fz; [|apply hasOwnProperty_notin; exact Hnotin].
      cbn. unfold getZoom. rewrite Hm. reflexivity.
    + intros p [->|Hin]; [|apply I3; exact Hin].
      destruct (applyState_frame rest (applyField st (Fposition p))) as (_ & Fp & _).
      rewrite Fp; [|apply hasOwnProperty_notin; exact Hnotin].
      cbn. unfold getPosition. rewrite Hm. reflexivity.
Qed.

Lemma hasOwnProperty_In (newState : NewState) (f : Field) :
  In f newState -> hasOwnProperty newState (key f) = true.
Proof.
  intro H. destruct (hasOwnProperty newState (key f)) eqn:E; [reflexivity|].
  exfalso. exact (hasOwnProperty_false _ _ E f H eq_refl).
Qed.

Lemma setState_unmeasured (st : State) (newState : NewState) :
  wf_newState newState ->
  unmeasured st = true ->
  (forall s, In (Foriginal s) newState -> unmeasured (set_original st s) = true) ->
  (forall z, In (Fzoom z) newState -> zoom (setState st newState) = z) /\
  (forall p, In (Fposition p) newState -> position (setState st newState) = p) /\
  (hasOwnProperty newState Kzoom = false ->
     zoom (setState st newState) = zoom st) /\
  (hasOwnProperty newState Kposition = false ->
     position (setState st newState) = position st).
Proof.
  intros Hwf Hm Ho.
  destruct (applyState_unmeasured newState st Hwf Hm Ho) as (Hm1 & Hz & Hp).
  destruct (applyState_frame newState st) as (Fz & Fp & _ & _).
  assert (Hre : forall s : State, unmeasured s = true ->
            applyState s [Fzoom (zoom s)] = s /\
            applyState s [Fposition (position s)] = s).
  { intros s Hs. cbn. unfold getZoom, getPosition. rewrite Hs.
    destruct s; split; reflexivity. }
  unfold setState. cbv zeta.
  set (st1 := applyState st newState) in *.
  destruct (Hre st1 Hm1) as [Rz Rp].
  assert (E : (if hasOwnProperty newState Kzoom then st1
               else applyState st1 [Fzoom (zoom st1)]) = st1).
  { destruct (hasOwnProperty newState Kzoom); [reflexivity | exact Rz]. }
  rewrite E.
  assert (E' : (if hasOwnProperty newState Kposition then st1
                else applyState st1 [Fposition (position st1)]) = st1).
  { destruct (hasOwnProperty newState Kposition); [reflexivity | exact Rp]. }
  rewrite E'.
  repeat split; auto.
Qed.

Lemma wf_single (f : Field) : wf_newState [f].
Proof.
  unfold wf_newState. cbn. constructor; [intros [] | constructor].
Qed.




(** ** The scene of 2000 by 1000 in 500 by 500 *)

(** C8.  With an image of 2000 by 1000 and a container of 500 by 500,
    [setState({zoom: 0.1})] stores the zoom [0.25]; at that zoom the
    bounds of the x axis are [min = max = -750], so that every requested
    [x] is stored as [-750], and the bounds of the y axis are
    [min = -375] and [max = -125], so that a requested [y = 1000] is
    stored as [-125]. *)
Theorem scenario_2000x1000_in_500x500 (p0 : Pos) (z0 : num) :
  let st1 := setState (scenario p0 z0) [Fzoom (Some (1 # 10))] in
  zoom st1 =n= Some (1 # 4) /\
  calcPos_min st1 (Some 2000) (Some 500) =n= Some (-750) /\
  calcPos_max st1 (Some 2000) (Some 500) =n= Some (-750) /\
  calcPos_min st1 (Some 1000) (Some 500) =n= Some (-375) /\
  calcPos_max st1 (Some 1000) (Some 500) =n= Some (-125) /\
  (forall px py : Q,
     x (position (setState st1 [Fposition (mkPos (Some px) (Some py))]))
       =n= Some (-750)) /\
  (forall px : Q,
     y (position (setState st1 [Fposition (mkPos (Some px) (Some 1000))]))
       =n= Some (-125)).
Proof.
  intro st1.
  assert (Hz : zoom st1 = Some (500 / 2000)) by reflexivity.
  assert (Ho : original st1 = mkSize (Some 2000) (Some 1000)) by reflexivity.
  assert (Hc : container st1 = mkSize (Some 500) (Some 500)) by reflexivity.
  assert (Hm : unmeasured st1 = false) by (unfold unmeasured; rewrite Ho; reflexivity).
  clearbody st1.
  assert (Hpos : forall p : Pos,
            position (setState st1 [Fposition p]) = getPosition st1 p).
  { intro p. reflexivity. }
  repeat split.
  - rewrite Hz. reflexivity.
  - destruct (calcPos_min_some st1 2000 500 _ Hz) as (lo & -> & E).
    simpl. rewrite E. reflexivity.
  - destruct (calcPos_max_some st1 2000 500 _ Hz) as (hi & -> & E).
    simpl. rewrite E. reflexivity.
  - destruct (calcPos_min_some st1 1000 500 _ Hz) as (lo & -> & E).
    simpl. rewrite E. reflexivity.
  - destruct (calcPos_max_some st1 1000 500 _ Hz) as (hi & -> & E).
    simpl. rewrite E. reflexivity.
  - intros px py. rewrite Hpos. unfold getPosition. rewrite Hm, Ho, Hc.
    cbn [x y width height].
    destruct (calcPos_some st1 px 2000 500 _ Hz) as (r & -> & [Hlo Hhi] & _).
    simpl.
    assert (Spec.min 2000 500 (500 / 2000) == -750) by reflexivity.
    assert (Spec.max 2000 500 (500 / 2000) == -750) by reflexivity.
    lra.
  - intros px. rewrite Hpos. unfold getPosition. rewrite Hm, Ho, Hc.
    cbn [x y width height].
    destruct (calcPos_some st1 1000 1000 500 _ Hz) as (r & -> & _ & Hr).
    simpl. rewrite Hr. reflexivity.
Qed.

(** ** Values the call does not carry are validated after the loop *)

Lemma positive_truthy (v : num) : positive v -> truthy v = true.
Proof.
  unfold positive. destruct v as [q|]; unfold_num; [|tauto].
  intro H. qcases. reflexivity.
Qed.

Lemma sizes_known_measured (st : State) :
  sizes_known st -> unmeasured st = false.
Proof.
  intros (Hw & Hh & _). unfold unmeasured.
  rewrite (positive_truthy _ Hw), (positive_truthy _ Hh). reflexivity.
Qed.

(** The divisor in [getZoom] is never zero. *)
Lemma getZoom_divisor_nonzero (st : State) :
  unmeasured st = false ->
  truthy (if ngt (width (original st)) (height (original st))
          then width (original st) else height (original st)) = true.
Proof.
  unfold unmeasured. intro H. apply orb_false_iff in H. destruct H as [Hw Hh].
  apply negb_false_iff in Hw, Hh.
  destruct (ngt _ _); assumption.
Qed.

(** The minimum of [getZoom] is the larger side of the container over
    the larger side of the image. *)
Lemma getZoom_min_spec (st : State) (iw ih cw ch : Q) :
  original st = mkSize (Some iw) (Some ih) ->
  container st = mkSize (Some cw) (Some ch) ->
  0 < iw -> 0 < ih ->
  exists m, getZoom_min st = Some m /\ m == Spec.minZoom iw ih cw ch.
Proof.
  intros Ho Hc Hw Hh. unfold getZoom_min, Spec.minZoom. rewrite Ho, Hc.
  cbn [width height].
  destruct (Q.max_spec cw ch) as [[C1 C2] | [C1 C2]];
    destruct (Q.max_spec iw ih) as [[I1 I2] | [I1 I2]];
    unfold_num; qcases; cbn [negb];
    qcases; eexists; (split; [reflexivity|]); rewrite C2, I2;
    first [ reflexivity
          | assert (Ec : cw == ch) by lra; rewrite Ec; reflexivity
          | assert (Ei : iw == ih) by lra; rewrite Ei; reflexivity
          | assert (Ec : cw == ch) by lra; assert (Ei : iw == ih) by lra;
            rewrite Ec, Ei; reflexivity ].
Qed.

Lemma sizes_known_inv (st : State) :
  sizes_known st ->
  exists iw ih cw ch,
    original st = mkSize (Some iw) (Some ih) /\
    container st = mkSize (Some cw) (Some ch) /\
    0 < iw /\ 0 < ih /\ 0 < cw /\ 0 < ch.
Proof.
  unfold sizes_known, positive.
  destruct (original st) as [[iw|] [ih|]], (container st) as [[cw|] [ch|]];
    cbn; try tauto.
  intros (H1 & H2 & H3 & H4). exists iw, ih, cw, ch. auto 10.
Qed.

(** What [setState] returns, field by field. *)
Lemma setState_fields (st : State) (newState : NewState) :
  let st1 := applyState st newState in
  let z2 := if hasOwnProperty newState Kzoom then zoom st1
            else getZoom st1 (zoom st1) in
  original (setState st newState) = original st1 /\
  container (setState st newState) = container st1 /\
  zoom (setState st newState) = z2 /\
  position (setState st newState) =
    if hasOwnProperty newState Kposition then position st1
    else getPosition (set_zoom st1 z2) (position st1).
Proof.
  unfold setState. cbv zeta.
  destruct (hasOwnProperty newState Kzoom), (hasOwnProperty newState Kposition);
    cbn; repeat split; reflexivity.
Qed.

(** A call without a zoom leaves the zoom at or above the floor. *)
Lemma setState_revalidates_zoom (st : State) (newState : NewState) (z : Q) :
  hasOwnProperty newState Kzoom = false ->
  zoom st = Some z ->
  sizes_known (setState st newState) ->
  zoom_floor (setState st newState).
Proof.
  intros Hkey Hz Hknown.
  pose proof (sizes_known_measured _ Hknown) as Hm.
  destruct (sizes_known_inv _ Hknown) as (iw & ih & cw & ch & Ho & Hc & Hiw & Hih & _).
  destruct (getZoom_min_spec _ iw ih cw ch Ho Hc Hiw Hih) as (m & Em & _).
  destruct (setState_fields st newState) as (Fo & Fc & Fz & _).
  rewrite Hkey in Fz.
  destruct (applyState_frame newState st) as (Frz & _).
  rewrite (Frz Hkey), Hz in Fz.
  unfold zoom_floor. rewrite Em, Fz.
  assert (Emin : getZoom_min (applyState st newState) = Some m).
  { rewrite <- Em. unfold getZoom_min. rewrite Fo, Fc. reflexivity. }
  assert (Hm1 : unmeasured (applyState st newState) = false).
  { rewrite <- Hm. unfold unmeasured. rewrite Fo. reflexivity. }
  unfold getZoom. rewrite Hm1, Emin.
  destruct (Math_max_some z m) as (r & -> & _ & Hr & _). exact Hr.
Qed.

(** A call without a pan leaves the pan inside the bounds of the stored
    zoom and sizes. *)
Lemma setState_revalidates_pan (st : State) (newState : NewState) (px py z : Q) :
  hasOwnProperty newState Kposition = false ->
  position st = mkPos (Some px) (Some py) ->
  zoom (setState st newState) = Some z ->
  sizes_known (setState st newState) ->
  pan_within (setState st newState).
Proof.
  intros Hkey Hp Hz Hknown.
  pose proof (sizes_known_measured _ Hknown) as Hm.
  destruct (sizes_known_inv _ Hknown) as (iw & ih & cw & ch & Ho & Hc & _).
  destruct (setState_fields st newState) as (Fo & Fc & Fz & Fp).
  rewrite Hkey in Fp.
  destruct (applyState_frame newState st) as (_ & Frp & _).
  rewrite (Frp Hkey), Hp in Fp. rewrite <- Fz in Fp.
  assert (Hm2 : unmeasured (set_zoom (applyState st newState)
                                      (zoom (setState st newState))) = false).
  { rewrite <- Hm. unfold unmeasured. rewrite Fo. reflexivity. }
  unfold getPosition in Fp. rewrite Hm2 in Fp.
  cbn [original container set_zoom x y] in Fp. rewrite <- Fo, <- Fc, Ho, Hc in Fp.
  cbn [width height] in Fp.
  set (st2 := set_zoom (applyState st newState) (zoom (setState st newState))) in *.
  assert (Hz2 : zoom st2 = Some z) by exact Hz.
  assert (Hbounds : forall s c, calcPos_min (setState st newState) s c = calcPos_min st2 s c
                             /\ calcPos_max (setState st newState) s c = calcPos_max st2 s c).
  { intros s c. unfold calcPos_min, calcPos_max. rewrite Hz, Hz2. split; reflexivity. }
  unfold pan_within. rewrite Ho, Hc, Fp. cbn [width height x y].
  split.
  - destruct (Hbounds (Some iw) (Some cw)) as [-> ->].
    destruct (calcPos_min_some st2 iw cw z Hz2) as (lo & -> & Hlo).
    destruct (calcPos_max_some st2 iw cw z Hz2) as (hi & -> & Hhi).
    destruct (calcPos_some st2 px iw cw z Hz2) as (r & -> & Hr & _).
    split; simpl; lra.
  - destruct (Hbounds (Some ih) (Some ch)) as [-> ->].
    destruct (calcPos_min_some st2 ih ch z Hz2) as (lo & -> & Hlo).
    destruct (calcPos_max_some st2 ih ch z Hz2) as (hi & -> & Hhi).
    destruct (calcPos_some st2 py ih ch z Hz2) as (r & -> & Hr & _).
    split; simpl; lra.
Qed.

(** ** Fields handled in the order of the caller's object *)

(** The loop of [applyState] hands the fields to their handlers one by
    one in the order of the object. *)
Lemma applyState_cons (st : State) (f : Field) (rest : NewState) :
  applyState st (f :: rest) = applyState (applyField st f) rest.
Proof. reflexivity. Qed.

Lemma legal_start_legal : sizes_known legal_start /\ legal legal_start.
Proof.
  split.
  - repeat split.
  - intros _. unfold zoom_floor, pan_within, within.
    repeat split; vm_compute; discriminate.
Qed.

(** C1.  The zoom floor does not survive every call.  From the legal
    state [legal_start], [setState({zoom: 0.25, original: {width: 1000,
    height: 500}})] runs the zoom handler against the image of 2000 by
    1000 it is about to replace and, the call carrying a zoom, does not
    validate the zoom again: both sizes are positive afterwards, the
    stored zoom is [0.25] and the minimum for the stored sizes is [0.5].
    The same object with [original] listed first stores [0.5]. *)
Theorem zoom_floor_lost_when_zoom_precedes_size :
  sizes_known (setState legal_start zoom_then_original) /\
  zoom (setState legal_start zoom_then_original) =n= Some (1 # 4) /\
  getZoom_min (setState legal_start zoom_then_original) =n= Some (1 # 2) /\
  Spec.minZoom 1000 500 500 500 == 1 # 2 /\
  ~ zoom_floor (setState legal_start zoom_then_original) /\
  zoom (setState legal_start original_then_zoom) =n= Some (1 # 2).
Proof.
  repeat split; try (vm_compute; reflexivity).
  vm_compute. intro H. apply H. reflexivity.
Qed.

(** C2.  Pan containment does not survive every call.  From the legal
    state [legal_start], [setState({position: {x: -1500, y: -500},
    zoom: 0.25})] clamps the pan at the stored zoom [1], then lowers the
    zoom to [0.25], and does not clamp the pan again: the stored pan
    [(-1500, -500)] is outside the bounds [-750 .. -750] and
    [-375 .. -125] of the stored zoom.  A call with a pan alone does the
    same to a state whose zoom is below the floor: the pan is clamped
    before the zoom is validated. *)
Theorem pan_containment_lost_when_position_precedes_zoom :
  sizes_known (setState legal_start position_then_zoom) /\
  Pos_eq (position (setState legal_start position_then_zoom))
         (mkPos (Some (-1500)) (Some (-500))) /\
  zoom (setState legal_start position_then_zoom) =n= Some (1 # 4) /\
  ~ pan_within (setState legal_start position_then_zoom) /\
  ~ pan_within (setState (scenario (mkPos (Some 0) (Some 0)) (Some (1 # 8)))
                         [Fposition (mkPos (Some 0) (Some 0))]).
Proof.
  repeat split; try (vm_compute; reflexivity).
  - intros [[Hlo _] _]. vm_compute in Hlo. apply Hlo. reflexivity.
  - intros [[_ Hhi] _]. vm_compute in Hhi. apply Hhi. reflexivity.
Qed.

(** C4.  The order of resolution inside one call is the order of the
    caller's object.  With the zoom listed before the image size the
    zoom is clamped against the sizes of the state before the call, and
    with the pan listed before the zoom the pan is clamped against the
    zoom of the state before the call; the same fields listed the other
    way round give another state. *)
Theorem resolution_order_follows_listing :
  (forall st f rest, applyState st (f :: rest) = applyState (applyField st f) rest) /\
  zoom (setState legal_start zoom_then_original)
    =n= getZoom legal_start (Some (1 # 4)) /\
  ~ zoom (setState legal_start zoom_then_original)
      =n= zoom (setState legal_start original_then_zoom) /\
  Pos_eq (position (setState legal_start position_then_zoom))
         (getPosition legal_start (mkPos (Some (-1500)) (Some (-500)))) /\
  ~ Pos_eq (position (setState legal_start position_then_zoom))
           (position (setState legal_start zoom_then_position)).
Proof.
  split; [exact applyState_cons|].
  repeat split; try (vm_compute; reflexivity).
  - vm_compute. discriminate.
  - intros [Hx _]. vm_compute in Hx. discriminate Hx.
Qed.

(** ** [getState] returns the state object itself *)

Lemma heap_write_same (h : Heap) (r : ref) (f : State -> State) :
  heap_write h r f r = option_map f (h r).
Proof. unfold heap_write. rewrite Nat.eqb_refl. reflexivity. Qed.

(** A caller that sets [zoom] to [7] on the object [getState] returned
    has changed the zoom of the instance. *)
Lemma getState_is_not_a_snapshot : ~ snapshot_semantics.
Proof.
  intro H.
  specialize (H (mkInstance 0%nat) (singleton_heap 0%nat initialState)
                (fun st => set_zoom st (Some 7))).
  vm_compute in H. discriminate H.
Qed.

(** C9, as the code has it.  [getState] returns the reference of the
    state object of the instance, not a copy: a write to a field through
    the returned reference is a write to the state of the instance, and
    the next [setState] starts from the written state. *)
Theorem getState_returns_the_state_object
    (i : Instance) (h : Heap) (st : State) (mutate : State -> State) :
  internal i h = Some st ->
  getState i = state_ref i /\
  internal i (heap_write h (getState i) mutate) = Some (mutate st) /\
  (forall newState,
     internal i (setState_heap i newState (heap_write h (getState i) mutate))
       = Some (setState (mutate st) newState)).
Proof.
  intro Hst. unfold internal, getState, setState_heap in *.
  split; [reflexivity|]. split.
  - rewrite heap_write_same, Hst. reflexivity.
  - intro newState. rewrite !heap_write_same, Hst. reflexivity.
Qed.

Lemma getState_returns_the_state_object_witness :
  internal (mkInstance 0%nat)
           (heap_write (singleton_heap 0%nat initialState)
                       (getState (mkInstance 0%nat))
                       (fun st => set_zoom st (Some 7)))
    = Some (set_zoom initialState (Some 7)).
Proof.
  apply (getState_returns_the_state_object
           (mkInstance 0%nat) (singleton_heap 0%nat initialState)
           initialState (fun st => set_zoom st (Some 7))).
  reflexivity.
Defined.

(** * The engine under ordered calls *)

Lemma measured_inv (st : State) :
  unmeasured st = false ->
  exists iw ih, original st = mkSize (Some iw) (Some ih) /\
                ~ iw == 0 /\ ~ ih == 0.
Proof.
  unfold unmeasured. intro H. apply orb_false_iff in H. destruct H as [Hw Hh].
  apply negb_false_iff in Hw, Hh.
  destruct (original st) as [[iw|] [ih|]]; cbn in Hw, Hh; try discriminate.
  apply negb_true_iff in Hw, Hh. apply Qeq_bool_false in Hw, Hh.
  exists iw, ih. auto.
Qed.

Lemma getZoom_min_some (st : State) (iw ih cw ch : Q) :
  original st = mkSize (Some iw) (Some ih) ->
  container st = mkSize (Some cw) (Some ch) ->
  ~ iw == 0 -> ~ ih == 0 ->
  exists m, getZoom_min st = Some m.
Proof.
  intros Ho Hc Hw Hh. unfold getZoom_min. rewrite Ho, Hc. cbn [width height].
  unfold ngt.
  destruct (negb (Qle_bool iw ih)), (negb (Qle_bool cw ch)); unfold ndiv;
    match goal with
    | |- context [Qeq_bool ?d 0] =>
        let E := fresh "E" in
        destruct (Qeq_bool d 0) eqn:E;
        [ apply Qeq_bool_iff in E; tauto | eauto ]
    end.
Qed.

(** The zoom handler followed by the pan handler, on numbers: the
    outcome is made of numbers and is legal, whatever the state was. *)
Lemma handlers_resolve (st : State) (z px py : Q) :
  numeric_size (container st) ->
  let stz := set_zoom st (getZoom st (Some z)) in
  let stp := set_position stz (getPosition stz (mkPos (Some px) (Some py))) in
  numeric stp /\ legal stp.
Proof.
  intros (cw & ch & Hc) stz stp.
  destruct (unmeasured st) eqn:Hm.
  - assert (Ez : stz = set_zoom st (Some z)).
    { unfold stz, getZoom. rewrite Hm. reflexivity. }
    assert (Ep : stp = set_position stz (mkPos (Some px) (Some py))).
    { unfold stp, getPosition. change (unmeasured stz) with (unmeasured st).
      rewrite Hm. reflexivity. }
    rewrite Ep, Ez. split.
    + repeat split; cbn; [eauto | exists px, py; reflexivity | exists cw, ch; exact Hc].
    + intro H. exfalso. change (unmeasured st = false) in H. congruence.
  - destruct (measured_inv st Hm) as (iw & ih & Ho & Hiw & Hih).
    destruct (getZoom_min_some st iw ih cw ch Ho Hc Hiw Hih) as (m & Em).
    destruct (Math_max_some z m) as (r & Er & _ & Hmr & _).
    assert (Ez : stz = set_zoom st (Some r)).
    { unfold stz, getZoom. rewrite Hm, Em, Er. reflexivity. }
    assert (Hzz : zoom stz = Some r) by (rewrite Ez; reflexivity).
    destruct (calcPos_some stz px iw cw r Hzz) as (rx & Erx & Hrx & _).
    destruct (calcPos_some stz py ih ch r Hzz) as (ry & Ery & Hry & _).
    assert (Ep : stp = set_position stz (mkPos (Some rx) (Some ry))).
    { unfold stp, getPosition.
      change (unmeasured stz) with (unmeasured st).
      change (original stz) with (original st).
      change (container stz) with (container st).
      rewrite Hm, Ho, Hc.
      cbn [x y width height]. rewrite Erx, Ery. reflexivity. }
    rewrite Ep, Ez. split.
    + repeat split; cbn; [eauto | exists rx, ry; reflexivity | exists cw, ch; exact Hc].
    + intros _. split.
      * unfold zoom_floor.
        replace (getZoom_min (set_position (set_zoom st (Some r)) (mkPos (Some rx) (Some ry))))
          with (getZoom_min st) by reflexivity.
        rewrite Em. exact Hmr.
      * set (s3 := set_position (set_zoom st (Some r)) (mkPos (Some rx) (Some ry))).
        assert (H3 : zoom s3 = Some r) by reflexivity.
        unfold pan_within.
        replace (original s3) with (mkSize (Some iw) (Some ih)) by (symmetry; exact Ho).
        replace (container s3) with (mkSize (Some cw) (Some ch)) by (symmetry; exact Hc).
        replace (position s3) with (mkPos (Some rx) (Some ry)) by reflexivity.
        cbn [x y width height].
        destruct (calcPos_min_some s3 iw cw r H3) as (lx & -> & Hlx).
        destruct (calcPos_max_some s3 iw cw r H3) as (hx & -> & Hhx).
        destruct (calcPos_min_some s3 ih ch r H3) as (ly & -> & Hly).
        destruct (calcPos_max_some s3 ih ch r H3) as (hy & -> & Hhy).
        unfold within. cbn. repeat split; lra.
Qed.

Lemma hasOwnProperty_app (a b : NewState) (k : Key) :
  hasOwnProperty (a ++ b) k = hasOwnProperty a k || hasOwnProperty b k.
Proof. unfold hasOwnProperty. apply existsb_app. Qed.

Lemma applyState_app (st : State) (a b : NewState) :
  applyState st (a ++ b) = applyState (applyState st a) b.
Proof. unfold applyState. apply fold_left_app. Qed.

(** Size fields are stored and touch neither zoom nor pan. *)
Lemma applyState_sizes (sizes : NewState) (st : State) :
  Forall size_field sizes ->
  hasOwnProperty sizes Kzoom = false /\
  hasOwnProperty sizes Kposition = false /\
  zoom (applyState st sizes) = zoom st /\
  position (applyState st sizes) = position st /\
  (numeric_size (container st) \/ hasOwnProperty sizes Kcontainer = true ->
   numeric_size (container (applyState st sizes))).
Proof.
  intro Hs. revert st. induction Hs as [|f rest Hf Hrest IH]; intro st.
  - cbn. repeat split; auto. intros [H|H]; [exact H | discriminate H].
  - destruct (IH (applyField st f)) as (I1 & I2 & I3 & I4 & I5).
    rewrite applyState_cons.
    destruct f as [p|s|s|z]; cbn in Hf; try contradiction;
      (split; [exact I1|]); (split; [exact I2|]);
      (split; [rewrite I3; reflexivity|]);
      (split; [rewrite I4; reflexivity|]);
      intros [H|H]; apply I5; auto.
Qed.

(** An ordered call is the size fields, then the two handlers. *)
Lemma ordered_call_shape (st : State) (newState : NewState) :
  ordered_call newState ->
  (exists z, zoom st = Some z) ->
  numeric_pos (position st) ->
  exists sizes z px py,
    Forall size_field sizes /\
    (forall k, hasOwnProperty sizes k = true -> hasOwnProperty newState k = true) /\
    (hasOwnProperty newState Kcontainer = true -> hasOwnProperty sizes Kcontainer = true) /\
    (hasOwnProperty newState Koriginal = true -> hasOwnProperty sizes Koriginal = true) /\
    let sts := applyState st sizes in
    let stz := set_zoom sts (getZoom sts (Some z)) in
    setState st newState =
      set_position stz (getPosition stz (mkPos (Some px) (Some py))).
Proof.
  intros Hord [z0 Hz0] (px0 & py0 & Hp0).
  destruct Hord as [sizes Hs | sizes z Hs | sizes z px py Hs];
    destruct (applyState_sizes sizes st Hs) as (Kz & Kp & Fz & Fp & _).
  - exists sizes, z0, px0, py0. split; [exact Hs|].
    split; [auto|]. split; [auto|]. split; [auto|].
    unfold setState. cbv zeta. rewrite Kz, Kp.
    cbn [applyState fold_left applyField]. fold (applyState st sizes).
    rewrite Fz, Hz0. cbn [position set_zoom]. rewrite Fp, Hp0. reflexivity.
  - exists sizes, z, px0, py0. split; [exact Hs|].
    split; [intros k Hk; rewrite hasOwnProperty_app, Hk; reflexivity|].
    split; [rewrite hasOwnProperty_app; cbn; rewrite orb_false_r; auto|].
    split; [rewrite hasOwnProperty_app; cbn; rewrite orb_false_r; auto|].
    unfold setState. cbv zeta.
    rewrite !hasOwnProperty_app, Kz, Kp, applyState_app.
    cbn [hasOwnProperty existsb key Key_eqb orb applyState fold_left applyField].
    fold (applyState st sizes). cbn [position set_zoom]. rewrite Fp, Hp0.
    reflexivity.
  - exists sizes, z, px, py. split; [exact Hs|].
    split; [intros k Hk; rewrite hasOwnProperty_app, Hk; reflexivity|].
    split; [rewrite hasOwnProperty_app; cbn; rewrite orb_false_r; auto|].
    split; [rewrite hasOwnProperty_app; cbn; rewrite orb_false_r; auto|].
    unfold setState. cbv zeta.
    rewrite !hasOwnProperty_app, Kz, Kp, applyState_app.
    cbn [hasOwnProperty existsb key Key_eqb orb applyState fold_left applyField].
    fold (applyState st sizes). reflexivity.
Qed.

Lemma ordered_call_resolves (st : State) (newState : NewState) :
  ordered_call newState ->
  (exists z, zoom st = Some z) ->
  numeric_pos (position st) ->
  numeric_size (container st) \/ hasOwnProperty newState Kcontainer = true ->
  numeric (setState st newState) /\ legal (setState st newState).
Proof.
  intros Hord Hz Hp Hc.
  destruct (ordered_call_shape st newState Hord Hz Hp)
    as (sizes & z & px & py & Hs & _ & Kc & _ & ->).
  apply handlers_resolve.
  apply (applyState_sizes sizes st Hs).
  destruct Hc as [Hc|Hc]; [left; exact Hc | right; apply Kc; exact Hc].
Qed.

(** A pan alone, in a legal state: the pan is clamped at the stored
    zoom, and the validation of the zoom that follows leaves it at the
    same number. *)
Lemma position_call_resolves (st : State) (px py : Q) :
  numeric st -> legal st ->
  let st' := setState st [Fposition (mkPos (Some px) (Some py))] in
  numeric st' /\ legal st' /\ zoom st' =n= zoom st /\
  Pos_eq (position st') (getPosition st (mkPos (Some px) (Some py))) /\
  original st' = original st /\ container st' = container st.
Proof.
  intros ([z Hz] & Hp & (cw & ch & Hc)) Hlegal st'.
  assert (Est : st' = set_zoom (set_position st (getPosition st (mkPos (Some px) (Some py))))
                               (getZoom st (Some z))).
  { unfold st', setState. cbn. rewrite Hz. reflexivity. }
  destruct (unmeasured st) eqn:Hm.
  - unfold getZoom, getPosition in Est. rewrite Hm in Est. rewrite Est.
    split; [|split; [|split; [|split; [|split; reflexivity]]]].
    + repeat split; cbn; [eauto | exists px, py; reflexivity | exists cw, ch; exact Hc].
    + intro H. exfalso. change (unmeasured st = false) in H. congruence.
    + cbn [zoom set_zoom]. rewrite Hz. apply num_eq_refl.
    + unfold getPosition. rewrite Hm. split; apply num_eq_refl.
  - destruct (Hlegal Hm) as [Hfloor _].
    destruct (measured_inv st Hm) as (iw & ih & Ho & Hiw & Hih).
    unfold zoom_floor in Hfloor. rewrite Hz in Hfloor.
    destruct (getZoom_min st) as [m|] eqn:Em; [|contradiction]. simpl in Hfloor.
    destruct (Math_max_some z m) as (r & Er & Hzr & Hmr & Hor).
    assert (Hrz : r == z) by (destruct Hor as [->| ->]; lra).
    destruct (calcPos_some st px iw cw z Hz) as (rx & Erx & Hrx & _).
    destruct (calcPos_some st py ih ch z Hz) as (ry & Ery & Hry & _).
    assert (Egp : getPosition st (mkPos (Some px) (Some py)) = mkPos (Some rx) (Some ry)).
    { unfold getPosition. rewrite Hm, Ho, Hc. cbn [x y width height].
      rewrite Erx, Ery. reflexivity. }
    assert (Egz : getZoom st (Some z) = Some r).
    { unfold getZoom. rewrite Hm, Em. exact Er. }
    rewrite Egp, Egz in Est. rewrite Est, Egp.
    set (s3 := set_zoom (set_position st (mkPos (Some rx) (Some ry))) (Some r)).
    assert (H3 : zoom s3 = Some r) by reflexivity.
    split; [|split; [|split; [|split; [|split; reflexivity]]]].
    + repeat split; cbn; [eauto | exists rx, ry; reflexivity | exists cw, ch; exact Hc].
    + intros _. split.
      * unfold zoom_floor.
        change (getZoom_min s3) with (getZoom_min st). rewrite Em. exact Hmr.
      * unfold pan_within.
        change (original s3) with (original st).
        change (container s3) with (container st).
        change (position s3) with (mkPos (Some rx) (Some ry)).
        rewrite Ho, Hc. cbn [x y width height].
        destruct (calcPos_min_some s3 iw cw r H3) as (lx & -> & Hlx).
        destruct (calcPos_max_some s3 iw cw r H3) as (hx & -> & Hhx).
        destruct (calcPos_min_some s3 ih ch r H3) as (ly & -> & Hly).
        destruct (calcPos_max_some s3 ih ch r H3) as (hy & -> & Hhy).
        destruct (Spec_bounds_compat iw cw z r Hrz) as [Cx1 Cx2].
        destruct (Spec_bounds_compat ih ch z r Hrz) as [Cy1 Cy2].
        unfold within. cbn. repeat split; lra.
    + unfold s3. cbn [zoom set_zoom]. rewrite Hz. exact Hrz.
    + split; apply num_eq_refl.
Qed.


(** X4.  A pan alone keeps the rules.  In a legal state of numbers,
    [setState({position: p})] returns a legal state of numbers, leaves
    the zoom at the same number, keeps both sizes, and stores what the
    pan handler makes of [p] in the state before the call. *)
Theorem position_call_keeps_legality (st : State) (px py : Q) :
  numeric st -> legal st ->
  numeric (setState st [Fposition (mkPos (Some px) (Some py))]) /\
  legal (setState st [Fposition (mkPos (Some px) (Some py))]) /\
  zoom (setState st [Fposition (mkPos (Some px) (Some py))]) =n= zoom st /\
  Pos_eq (position (setState st [Fposition (mkPos (Some px) (Some py))]))
         (getPosition st (mkPos (Some px) (Some py))) /\
  original (setState st [Fposition (mkPos (Some px) (Some py))]) = original st /\
  container (setState st [Fposition (mkPos (Some px) (Some py))]) = container st.
Proof.
  intros Hn Hl. exact (position_call_resolves st px py Hn Hl).
Qed.

Lemma position_call_keeps_legality_witness :
  numeric (setState legal_start [Fposition (mkPos (Some 10) (Some 10))]) /\
  legal (setState legal_start [Fposition (mkPos (Some 10) (Some 10))]) /\
  zoom (setState legal_start [Fposition (mkPos (Some 10) (Some 10))])
    =n= zoom legal_start /\
  Pos_eq (position (setState legal_start [Fposition (mkPos (Some 10) (Some 10))]))
         (getPosition legal_start (mkPos (Some 10) (Some 10))) /\
  original (setState legal_start [Fposition (mkPos (Some 10) (Some 10))])
    = original legal_start /\
  container (setState legal_start [Fposition (mkPos (Some 10) (Some 10))])
    = container legal_start.
Proof.
  apply (position_call_keeps_legality legal_start 10 10).
  - repeat split; cbn; [exists 1 | exists (-1500), (-500) | exists 500, 500]; reflexivity.
  - exact (proj2 legal_start_legal).
Defined.

(** * The widget *)

Lemma findContainer_spec (parents : list Element) :
  match findContainer parents with
  | Some container =>
      exists before after,
        parents = before ++ container :: after /\
        Forall (fun e => computedPosition e = "static"%string) before /\
        computedPosition container <> "static"%string
  | None => Forall (fun e => computedPosition e = "static"%string) parents
  end.
Proof.
  induction parents as [|parent rest IH]; cbn.
  - constructor.
  - destruct (String.eqb (computedPosition parent) "static") eqn:E; cbn.
    + apply String.eqb_eq in E.
      destruct (findContainer rest) as [container|].
      * destruct IH as (before & after & -> & Hb & Hc).
        exists (parent :: before), after. repeat split; auto.
      * constructor; assumption.
    + apply String.eqb_neq in E.
      exists [], rest. repeat split; auto.
Qed.

(** X1.  The container is the nearest positioned ancestor: the search
    returns the first element of the chain of parents whose computed
    position is not ['static'], every parent before it being static, and
    returns nothing exactly when every parent is static. *)
Theorem findContainer_nearest_positioned (parents : list Element) :
  (forall container,
     findContainer parents = Some container <->
     exists before after,
       parents = before ++ container :: after /\
       Forall (fun e => computedPosition e = "static"%string) before /\
       computedPosition container <> "static"%string) /\
  (findContainer parents = None <->
   Forall (fun e => computedPosition e = "static"%string) parents).
Proof.
  pose proof (findContainer_spec parents) as H.
  split.
  - intro container. split.
    + intro E. rewrite E in H. exact H.
    + intros (before & after & -> & Hb & Hc). clear H.
      induction Hb as [|e before He Hb IH]; cbn.
      * apply String.eqb_neq in Hc. rewrite Hc. reflexivity.
      * apply String.eqb_eq in He. rewrite He. exact IH.
  - split.
    + intro E. rewrite E in H. exact H.
    + intro Hall. destruct (findContainer parents) as [container|]; [|reflexivity].
      destruct H as (before & after & -> & _ & Hc).
      apply Forall_app in Hall. destruct Hall as [_ Hall].
      inversion Hall; subst. contradiction.
Qed.

Lemma widget_setState_ok (w : Widget) (newState : NewState) :
  numeric (setState (state w) newState) ->
  legal (setState (state w) newState) ->
  (forall d, dragging w = Some d -> numeric_pos d) ->
  widget_ok (widget_setState w newState).
Proof.
  intros Hn Hl Hd. unfold widget_ok, widget_setState. cbn.
  split; [exact Hn | split; [exact Hl | split; [reflexivity | exact Hd]]].
Qed.

Lemma rogneur_ok (parents : list Element) (w : Widget) :
  rogneur parents = Some w -> widget_ok w.
Proof.
  unfold rogneur. destruct (findContainer parents) as [container|]; [|discriminate].
  intro E. injection E as <-.
  unfold updateContainerSize.
  destruct (ordered_call_resolves initialState
              [Fcontainer (sizeOfRect (boundingClientRect container))]) as [Hn Hl].
  - apply ordered_sizes. constructor; [|constructor].
    cbn. unfold numeric_size, sizeOfRect. eauto.
  - exists 1. reflexivity.
  - exists 0, 0. reflexivity.
  - right. reflexivity.
  - apply widget_setState_ok; cbn; try assumption. intros d Hd. discriminate Hd.
Qed.

Lemma step_keeps_ok (w : Widget) (e : Event) :
  widget_ok w -> safe_event e -> widget_ok (step w e).
Proof.
  intros (Hn & Hl & Ht & Hd) Hsafe.
  pose proof Hn as (Hz & Hp & Hc).
  destruct e as [ex ey | ex ey ox oy | | path | url | rect | newState]; cbn [step].
  - (* mousedown *)
    unfold onmousedown, widget_ok. cbn.
    split; [exact Hn | split; [exact Hl | split; [exact Ht|]]].
    intros d Ed. injection Ed as <-.
    destruct Hp as (px & py & ->). cbn. unfold numeric_pos. eauto.
  - (* mousemove *)
    unfold onmousemove. destruct (dragging w) as [d|] eqn:Ed.
    + destruct (Hd d eq_refl) as (dx & dy & ->). cbn [x y nadd nsub lift2].
      destruct (position_call_resolves (state w)
                  (ex + ox - dx) (ey + oy - dy) Hn Hl) as (Hn' & Hl' & _).
      apply widget_setState_ok; try assumption.
      intros d' Ed'. rewrite Ed in Ed'. exact (Hd d' Ed').
    + split; [exact Hn | split; [exact Hl | split; [exact Ht|]]].
      intros d E. rewrite Ed in E. discriminate E.
  - (* mouseup *)
    unfold onmouseup, widget_ok. cbn.
    split; [exact Hn | split; [exact Hl | split; [exact Ht|]]].
    intros d Ed. discriminate Ed.
  - (* load event of the image *)
    destruct path as [[|rect rest]|]; cbn [onload];
      try (split; [exact Hn | split; [exact Hl | split; [exact Ht | exact Hd]]]).
    destruct (ordered_call_resolves (state w) [Foriginal (sizeOfRect rect)]) as [Hn' Hl'];
      auto.
    + apply ordered_sizes. repeat constructor.
    + apply widget_setState_ok; assumption.
  - (* load *)
    unfold load, widget_ok. cbn.
    split; [exact Hn | split; [|split; [exact Ht | exact Hd]]].
    intro H. discriminate H.
  - (* updateContainerSize *)
    unfold updateContainerSize.
    destruct (ordered_call_resolves (state w) [Fcontainer (sizeOfRect rect)]) as [Hn' Hl'];
      auto.
    + apply ordered_sizes. constructor; [|constructor].
      cbn. unfold numeric_size, sizeOfRect. eauto.
    + apply widget_setState_ok; assumption.
  - (* setState *)
    cbn in Hsafe. destruct Hsafe as [Hord | (px & py & ->)].
    + destruct (ordered_call_resolves (state w) newState Hord) as [Hn' Hl']; auto.
      apply widget_setState_ok; assumption.
    + destruct (position_call_resolves (state w) px py Hn Hl) as (Hn' & Hl' & _).
      apply widget_setState_ok; assumption.
Qed.

Lemma run_keeps_ok (events : list Event) (w : Widget) :
  widget_ok w -> Forall safe_event events -> widget_ok (run w events).
Proof.
  revert w. induction events as [|e rest IH]; intros w Hok Hsafe.
  - exact Hok.
  - inversion Hsafe; subst. cbn. apply IH; [apply step_keeps_ok|]; assumption.
Qed.

(** X2.  Construction.  [rogneur] gives no widget exactly when the image
    has no positioned ancestor; otherwise the widget starts with the pan
    [(0, 0)] and the zoom [1] unclamped, an unmeasured image, the size of
    the nearest positioned ancestor as container size, no drag in
    progress and the style [translate(0, 0) scale(1)]. *)
Theorem rogneur_initial_widget (parents : list Element) :
  (rogneur parents = None <->
   Forall (fun e => computedPosition e = "static"%string) parents) /\
  (forall w, rogneur parents = Some w ->
     exists container,
       findContainer parents = Some container /\
       state w = set_container initialState
                   (sizeOfRect (boundingClientRect container)) /\
       unmeasured (state w) = true /\
       dragging w = None /\
       transform w = Some (mkTransform (Some 0) (Some 0) (Some 1)) /\
       src w = None).
Proof.
  pose proof (findContainer_spec parents) as Hspec.
  unfold rogneur. split.
  - destruct (findContainer parents) as [container|].
    + split; [discriminate|]. intro Hall. exfalso.
      destruct Hspec as (before & after & -> & _ & Hc).
      apply Forall_app in Hall. destruct Hall as [_ Hall].
      inversion Hall; subst. contradiction.
    + split; [intros _; exact Hspec | reflexivity].
  - intros w E. destruct (findContainer parents) as [container|]; [|discriminate].
    injection E as <-. exists container. repeat split.
Qed.

(** * Dragging *)

Lemma Spec_panBounds_compat (v v' s c z z' : Q) :
  v' == v -> z' == z ->
  Spec.panBounds v' s c z' == Spec.panBounds v s c z.
Proof.
  intros Hv Hz. destruct (Spec_bounds_compat s c z z' Hz) as [Hm HM].
  unfold Spec.panBounds, Spec.clamp. revert Hm HM.
  generalize (Spec.min s c z') (Spec.max s c z') (Spec.min s c z) (Spec.max s c z).
  intros m' M' m M Hm HM.
  qcases; cbn [negb]; lra.
Qed.

(** The pan handler gives the same numbers in two states with the same
    sizes and the same zoom. *)
Lemma getPosition_compat (st1 st2 : State) (p1 p2 : Pos) :
  original st1 = original st2 -> container st1 = container st2 ->
  zoom st1 =n= zoom st2 -> Pos_eq p1 p2 ->
  numeric_pos p1 -> numeric_pos p2 ->
  numeric_size (container st1) -> (exists z, zoom st1 = Some z) ->
  Pos_eq (getPosition st1 p1) (getPosition st2 p2).
Proof.
  intros Ho Hc Hz [Hx Hy] (x1 & y1 & ->) (x2 & y2 & ->) (cw & ch & Ec) [z1 Ez1].
  cbn in Hx, Hy.
  assert (Hm : unmeasured st2 = unmeasured st1) by (unfold unmeasured; rewrite Ho; reflexivity).
  unfold getPosition. rewrite Hm.
  destruct (unmeasured st1) eqn:Hm1.
  - split; assumption.
  - destruct (measured_inv st1 Hm1) as (iw & ih & Eo & _).
    rewrite <- Ho, <- Hc, Eo, Ec. cbn [x y width height].
    rewrite Ez1 in Hz. destruct (zoom st2) as [z2|] eqn:Ez2; [|contradiction].
    cbn in Hz.
    destruct (calcPos_some st1 x1 iw cw z1 Ez1) as (a1 & -> & _ & Ha1).
    destruct (calcPos_some st2 x2 iw cw z2 Ez2) as (a2 & -> & _ & Ha2).
    destruct (calcPos_some st1 y1 ih ch z1 Ez1) as (b1 & -> & _ & Hb1).
    destruct (calcPos_some st2 y2 ih ch z2 Ez2) as (b2 & -> & _ & Hb2).
    split; cbn.
    + rewrite Ha1, Ha2. apply Spec_panBounds_compat; assumption.
    + rewrite Hb1, Hb2. apply Spec_panBounds_compat; assumption.
Qed.

Lemma Pos_eq_trans (p q r : Pos) : Pos_eq p q -> Pos_eq q r -> Pos_eq p r.
Proof.
  intros [H1 H2] [H3 H4]. split; eapply num_eq_trans; eassumption.
Qed.

Lemma Pos_eq_sym (p q : Pos) : Pos_eq p q -> Pos_eq q p.
Proof. intros [H1 H2]. split; apply num_eq_sym; assumption. Qed.

Lemma move_same_drag (w : Widget) (e : Event) :
  widget_ok w -> is_move e -> same_drag w (step w e).
Proof.
  intros (Hn & Hl & _ & Hd) Hmove.
  destruct e as [| ex ey ox oy | | | | |]; try contradiction. cbn [step].
  unfold onmousemove. destruct (dragging w) as [d|] eqn:Ed.
  - destruct (Hd d eq_refl) as (dx & dy & ->). cbn [x y nadd nsub lift2].
    destruct (position_call_resolves (state w) (ex + ox - dx) (ey + oy - dy) Hn Hl)
      as (_ & _ & Hz & _ & Ho & Hc).
    unfold same_drag, widget_setState. cbn [state dragging].
    repeat split; auto. apply num_eq_sym. exact Hz.
  - unfold same_drag. rewrite Ed. repeat split; apply num_eq_refl.
Qed.

Lemma same_drag_trans (w1 w2 w3 : Widget) :
  same_drag w1 w2 -> same_drag w2 w3 -> same_drag w1 w3.
Proof.
  intros (D1 & O1 & C1 & Z1) (D2 & O2 & C2 & Z2).
  repeat split; try congruence. eapply num_eq_trans; eassumption.
Qed.

(** The same move in two widgets of the same drag stores the same pan
    and the same zoom. *)
Lemma move_same_result (w1 w2 : Widget) (ex ey ox oy : Q) :
  widget_ok w1 -> widget_ok w2 -> same_drag w1 w2 ->
  (exists d, dragging w1 = Some d) ->
  Pos_eq (position (state (step w1 (MouseMove ex ey ox oy))))
         (position (state (step w2 (MouseMove ex ey ox oy)))) /\
  zoom (state (step w1 (MouseMove ex ey ox oy)))
    =n= zoom (state (step w2 (MouseMove ex ey ox oy))).
Proof.
  intros (Hn1 & Hl1 & _ & Hd1) (Hn2 & Hl2 & _ & Hd2) (D & O & C & Z) [d Ed].
  cbn [step]. unfold onmousemove. rewrite <- D, Ed.
  destruct (Hd1 d Ed) as (dx & dy & ->). cbn [x y nadd nsub lift2].
  set (p := mkPos (Some (ex + ox - dx)) (Some (ey + oy - dy))).
  destruct (position_call_resolves (state w1) (ex + ox - dx) (ey + oy - dy) Hn1 Hl1)
    as (_ & _ & Hz1 & Hp1 & _).
  destruct (position_call_resolves (state w2) (ex + ox - dx) (ey + oy - dy) Hn2 Hl2)
    as (_ & _ & Hz2 & Hp2 & _).
  fold p in Hz1, Hp1, Hz2, Hp2.
  unfold widget_setState. cbn [state].
  split.
  - eapply Pos_eq_trans; [exact Hp1|].
    eapply Pos_eq_trans; [|apply Pos_eq_sym; exact Hp2].
    destruct Hn1 as (Hzn & _ & Hcn).
    apply getPosition_compat; auto.
    + split; apply num_eq_refl.
    + exists (ex + ox - dx), (ey + oy - dy). reflexivity.
    + exists (ex + ox - dx), (ey + oy - dy). reflexivity.
  - eapply num_eq_trans; [exact Hz1|].
    eapply num_eq_trans; [exact Z|]. apply num_eq_sym. exact Hz2.
Qed.

Lemma moves_same_drag (moves : list Event) (w : Widget) :
  widget_ok w -> Forall is_move moves ->
  widget_ok (run w moves) /\ same_drag w (run w moves).
Proof.
  revert w. induction moves as [|e rest IH]; intros w Hok Hall.
  - split; [exact Hok|]. repeat split; apply num_eq_refl.
  - inversion Hall as [|? ? He Hrest]; subst. cbn [run fold_left].
    assert (Hok' : widget_ok (step w e)).
    { apply step_keeps_ok; [exact Hok|]. destruct e; try contradiction. exact I. }
    destruct (IH (step w e) Hok' Hrest) as [Hok'' Hsame].
    split; [exact Hok''|].
    eapply same_drag_trans; [apply move_same_drag; [exact Hok | exact He] | exact Hsame].
Qed.

Lemma run_app (w : Widget) (a b : list Event) :
  run w (a ++ b) = run (run w a) b.
Proof. unfold run. apply fold_left_app. Qed.

(** X6.  A drag does not depend on the path of the pointer.  In a widget
    that keeps the rules and is being dragged, after any sequence of
    mouse moves the stored pan and zoom are those the last move alone
    would have given. *)
Theorem drag_path_independent
    (w : Widget) (moves : list Event) (ex ey ox oy : Q) :
  widget_ok w ->
  (exists d, dragging w = Some d) ->
  Forall is_move moves ->
  Pos_eq (position (state (run w (moves ++ [MouseMove ex ey ox oy]))))
         (position (state (step w (MouseMove ex ey ox oy)))) /\
  zoom (state (run w (moves ++ [MouseMove ex ey ox oy])))
    =n= zoom (state (step w (MouseMove ex ey ox oy))).
Proof.
  intros Hok Hd Hmoves. rewrite run_app.
  destruct (moves_same_drag moves w Hok Hmoves) as [Hok' Hsame].
  change (run (run w moves) [MouseMove ex ey ox oy])
    with (step (run w moves) (MouseMove ex ey ox oy)).
  destruct (move_same_result w (run w moves) ex ey ox oy Hok Hok' Hsame Hd) as [Hp Hz].
  split; [apply Pos_eq_sym; exact Hp | apply num_eq_sym; exact Hz].
Qed.

(** X7.  Moves without a press are ignored: while no drag is in progress
    any sequence of mouse moves and releases leaves the widget as it
    is. *)
Theorem idle_moves_ignored (w : Widget) (events : list Event) :
  dragging w = None ->
  Forall (fun e => is_move e \/ e = MouseUp) events ->
  run w events = w.
Proof.
  intros Hd Hall. induction Hall as [|e rest He Hrest IH].
  - reflexivity.
  - cbn [run fold_left].
    assert (E : step w e = w).
    { destruct He as [He| ->].
      - destruct e; try contradiction. cbn. unfold onmousemove. rewrite Hd. reflexivity.
      - cbn. unfold onmouseup. destruct w; cbn in Hd; subst. reflexivity. }
    rewrite E. exact IH.
Qed.

Lemma demo_widget_built : rogneur demo_parents = Some demo_widget.
Proof. reflexivity. Qed.

Lemma demo_loaded_ok : widget_ok demo_loaded.
Proof.
  apply run_keeps_ok.
  - exact (rogneur_ok demo_parents demo_widget demo_widget_built).
  - repeat constructor.
Qed.

Lemma demo_dragging_ok : widget_ok demo_dragging.
Proof.
  apply run_keeps_ok; [exact demo_loaded_ok | repeat constructor].
Qed.

Lemma drag_path_independent_witness :
  Pos_eq (position (state (run demo_dragging
                             ([MouseMove 20 20 0 0; MouseMove 500 0 0 0]
                              ++ [MouseMove 30 5 0 0]))))
         (position (state (step demo_dragging (MouseMove 30 5 0 0)))) /\
  zoom (state (run demo_dragging
                 ([MouseMove 20 20 0 0; MouseMove 500 0 0 0]
                  ++ [MouseMove 30 5 0 0])))
    =n= zoom (state (step demo_dragging (MouseMove 30 5 0 0))).
Proof.
  apply (drag_path_independent demo_dragging
           [MouseMove 20 20 0 0; MouseMove 500 0 0 0] 30 5 0 0).
  - exact demo_dragging_ok.
  - eexists. reflexivity.
  - repeat constructor.
Defined.

Lemma idle_moves_ignored_witness :
  run demo_loaded [MouseMove 20 20 0 0; MouseUp; MouseMove 500 0 0 7] = demo_loaded.
Proof.
  apply (idle_moves_ignored demo_loaded).
  - reflexivity.
  - constructor; [left; exact I|].
    constructor; [right; reflexivity|].
    constructor; [left; exact I | constructor].
Defined.

(** * Loading an image *)

Lemma revalidation_fix (st : State) :
  legal st -> State_eq (setState st []) st.
Proof.
  intro Hlegal.
  assert (E : setState st [] =
              set_position (set_zoom st (getZoom st (zoom st)))
                (getPosition (set_zoom st (getZoom st (zoom st))) (position st)))
    by reflexivity.
  rewrite E. clear E.
  destruct (unmeasured st) eqn:Hm.
  - unfold getZoom, getPosition. rewrite unmeasured_set_zoom, Hm.
    destruct st. apply State_eq_refl.
  - destruct (Hlegal Hm) as [Hfloor [Hx Hy]].
    pose proof (getZoom_fix st Hm Hfloor) as Hz.
    unfold State_eq. cbn [position original container zoom set_position set_zoom].
    split; [|repeat split; try apply num_eq_refl; exact Hz].
    unfold getPosition. rewrite unmeasured_set_zoom, Hm.
    cbn [original container set_zoom].
    split; cbn [x y]; apply (calcPos_fix st); assumption.
Qed.

(** X9.  Reloading an image of the same size restores the view.  In a
    widget that keeps the rules, [load] followed by a load event whose
    path starts with an image of the size the state had gives back the
    same pan, zoom and sizes, with the new [src].  A load event without
    a path, or with an empty one, makes the handler throw before it
    stores anything: after [load] the image then stays unmeasured and
    pan, zoom and container size are those before [load]. *)
Theorem reload_same_size_restores
    (w : Widget) (url : string) (iw ih : Q) (rest : list Rect) :
  widget_ok w ->
  original (state w) = mkSize (Some iw) (Some ih) ->
  State_eq (state (run w [CallLoad url; ImageLoad (Some (mkRect iw ih :: rest))]))
           (state w) /\
  src (run w [CallLoad url; ImageLoad (Some (mkRect iw ih :: rest))]) = Some url /\
  run w [CallLoad url; ImageLoad None] = load w url /\
  run w [CallLoad url; ImageLoad (Some [])] = load w url /\
  state (load w url) = set_original (state w) emptySize.
Proof.
  intros (_ & Hl & _ & _) Ho.
  split; [|repeat split].
  assert (E : state (run w [CallLoad url; ImageLoad (Some (mkRect iw ih :: rest))])
              = setState (set_original (state w) (mkSize (Some iw) (Some ih))) [])
    by reflexivity.
  rewrite E.
  assert (E' : set_original (state w) (mkSize (Some iw) (Some ih)) = state w).
  { rewrite <- Ho. destruct (state w). reflexivity. }
  rewrite E'. apply revalidation_fix. exact Hl.
Qed.

Lemma reload_same_size_restores_witness :
  State_eq (state (run demo_loaded
                     [CallLoad "again.png"; ImageLoad (Some [mkRect 2000 1000])]))
           (state demo_loaded) /\
  src (run demo_loaded [CallLoad "again.png"; ImageLoad (Some [mkRect 2000 1000])])
    = Some "again.png"%string.
Proof.
  destruct (reload_same_size_restores demo_loaded "again.png" 2000 1000 [])
    as (H1 & H2 & _).
  - exact demo_loaded_ok.
  - reflexivity.
  - split; assumption.
Defined.

(** X10.  While an image loads nothing is clamped.  After [load], and
    until the load event of the image, [setState] with an object that
    carries no image size stores the zoom and the pan it is given as
    they are, whatever the state was and in whatever order they are
    listed. *)
Theorem load_suspends_clamping (w : Widget) (url : string) (newState : NewState) :
  wf_newState newState ->
  (forall s, ~ In (Foriginal s) newState) ->
  (forall z, In (Fzoom z) newState ->
     zoom (state (run w [CallLoad url; CallSetState newState])) = z) /\
  (forall p, In (Fposition p) newState ->
     position (state (run w [CallLoad url; CallSetState newState])) = p).
Proof.
  intros Hwf Hno.
  destruct (setState_unmeasured (set_original (state w) emptySize) newState Hwf)
    as (Hz & Hp & _).
  - reflexivity.
  - intros s Hs. exfalso. exact (Hno s Hs).
  - split; assumption.
Qed.

Lemma load_suspends_clamping_witness :
  zoom (state (run demo_loaded
                 [CallLoad "next.png";
                  CallSetState [Fposition (mkPos (Some 9000) (Some 9000));
                                Fzoom (Some (1 # 100))]]))
    = Some (1 # 100) /\
  position (state (run demo_loaded
                     [CallLoad "next.png";
                      CallSetState [Fposition (mkPos (Some 9000) (Some 9000));
                                    Fzoom (Some (1 # 100))]]))
    = mkPos (Some 9000) (Some 9000).
Proof.
  assert (Hwf : wf_newState [Fposition (mkPos (Some 9000) (Some 9000));
                             Fzoom (Some (1 # 100))]).
  { unfold wf_newState. cbn. repeat constructor; cbn; intuition discriminate. }
  destruct (load_suspends_clamping demo_loaded "next.png"
              [Fposition (mkPos (Some 9000) (Some 9000)); Fzoom (Some (1 # 100))]
              Hwf) as [Hz Hp].
  - intros s Hs. cbn in Hs. intuition discriminate.
  - split; [apply Hz | apply Hp]; cbn; auto.
Defined.

(** * The two handlers *)



(** X12.  The pan handler is monotone: of two requested coordinates the
    larger one is never stored as the smaller. *)
Theorem calcPos_monotone (st : State) (p1 p2 s c z : Q) :
  p1 <= p2 ->
  calcPos (set_zoom st (Some z)) (Some p1) (Some s) (Some c)
    <=n calcPos (set_zoom st (Some z)) (Some p2) (Some s) (Some c).
Proof.
  intro Hle.
  assert (Ez : zoom (set_zoom st (Some z)) = Some z) by reflexivity.
  destruct (calcPos_some _ p1 s c z Ez) as (r1 & -> & _ & H1).
  destruct (calcPos_some _ p2 s c z Ez) as (r2 & -> & _ & H2).
  simpl. rewrite H1, H2.
  pose proof (Spec_min_le_max s c z) as Hmm.
  unfold Spec.panBounds, Spec.clamp. revert Hmm.
  generalize (Spec.min s c z) (Spec.max s c z). intros m M Hmm.
  qcases; cbn [negb]; lra.
Qed.

Lemma calcPos_monotone_witness :
  calcPos (set_zoom initialState (Some 2)) (Some (-900)) (Some 300) (Some 500)
    <=n calcPos (set_zoom initialState (Some 2)) (Some 120) (Some 300) (Some 500).
Proof.
  apply (calcPos_monotone initialState (-900) 120 300 500 2).
  vm_compute; discriminate.
Defined.

(** X14.  The zoom handler.  With a numeric container size, a numeric
    request is answered by a number that is never below the request and
    that the handler returns unchanged when asked again; when the image
    is measured the answer is never below the floor, it is the request
    itself when the request is at or above the floor, and the floor
    otherwise. *)
Theorem getZoom_never_lowers (st : State) (z : Q) :
  numeric_size (container st) ->
  exists r,
    getZoom st (Some z) = Some r /\
    z <= r /\
    getZoom st (Some r) =n= Some r /\
    (unmeasured st = false ->
     exists m, getZoom_min st = Some m /\ m <= r /\
               (m <= z -> r == z) /\ (z <= m -> r == m)).
Proof.
  intros (cw & ch & Hc). unfold getZoom.
  destruct (unmeasured st) eqn:Hm.
  - exists z. split; [reflexivity|]. split; [lra|].
    split; [apply num_eq_refl | intro H; discriminate H].
  - destruct (measured_inv st Hm) as (iw & ih & Ho & Hiw & Hih).
    destruct (getZoom_min_some st iw ih cw ch Ho Hc Hiw Hih) as (m & Em).
    rewrite Em.
    destruct (Math_max_some z m) as (r & Er & Hzr & Hmr & Hor).
    exists r. split; [exact Er|]. split; [exact Hzr|]. split.
    + apply Math_max_ge. exact Hmr.
    + intros _. exists m. split; [reflexivity|]. split; [exact Hmr|].
      split; intro H; destruct Hor as [-> | ->]; lra.
Qed.

Lemma getZoom_never_lowers_witness :
  exists r,
    getZoom legal_start (Some (1 # 8)) = Some r /\
    1 # 8 <= r /\
    getZoom legal_start (Some r) =n= Some r /\
    (unmeasured legal_start = false ->
     exists m, getZoom_min legal_start = Some m /\ m <= r /\
               (m <= 1 # 8 -> r == 1 # 8) /\ (1 # 8 <= m -> r == m)).
Proof.
  apply (getZoom_never_lowers legal_start (1 # 8)).
  exists 500, 500. reflexivity.
Defined.

(** * Values that are not numbers *)

(** X16.  A container without a height.  In a measured state,
    [setState({container: c})] with an object [c] whose [height] is
    missing stores [NaN] as zoom and as both pan coordinates; and a zoom
    that is [NaN] stays so through every later call that carries no
    zoom. *)
Theorem missing_container_height_poisons (st : State) (cw : num) :
  unmeasured st = false ->
  zoom (setState st [Fcontainer (mkSize cw None)]) = None /\
  position (setState st [Fcontainer (mkSize cw None)]) = mkPos None None /\
  (forall st' newState,
     zoom st' = None -> hasOwnProperty newState Kzoom = false ->
     zoom (setState st' newState) = None).
Proof.
  intro Hm.
  assert (Hz : getZoom (set_container st (mkSize cw None)) (zoom st) = None).
  { unfold getZoom. change (unmeasured (set_container st (mkSize cw None)))
      with (unmeasured st). rewrite Hm.
    unfold getZoom_min. cbn [container set_container width height].
    destruct cw; cbn [ngt]; destruct (zoom st);
      repeat match goal with |- context [if ?b then _ else _] => destruct b end;
      reflexivity. }
  assert (E : setState st [Fcontainer (mkSize cw None)] =
              let st2 := set_zoom (set_container st (mkSize cw None))
                           (getZoom (set_container st (mkSize cw None)) (zoom st)) in
              set_position st2 (getPosition st2 (position st))) by reflexivity.
  rewrite E, Hz. cbv zeta. split; [reflexivity|]. split.
  - cbn [position set_position]. unfold getPosition.
    change (unmeasured (set_zoom (set_container st (mkSize cw None)) None))
      with (unmeasured st). rewrite Hm.
    unfold calcPos.
    cbn [zoom original container position set_zoom set_container width height].
    destruct (width (original st)), (height (original st)),
      (x (position st)), (y (position st)), cw; reflexivity.
  - intros st' newState Hnan Hkey.
    destruct (setState_fields st' newState) as (_ & _ & Fz & _).
    destruct (applyState_frame newState st') as (Frz & _).
    rewrite Fz, Hkey, (Frz Hkey), Hnan. unfold getZoom.
    destruct (unmeasured (applyState st' newState)); reflexivity.
Qed.

Lemma missing_container_height_poisons_witness :
  zoom (setState legal_start [Fcontainer (mkSize (Some 500) None)]) = None /\
  position (setState legal_start [Fcontainer (mkSize (Some 500) None)])
    = mkPos None None /\
  (forall st' newState,
     zoom st' = None -> hasOwnProperty newState Kzoom = false ->
     zoom (setState st' newState) = None).
Proof.
  apply (missing_container_height_poisons legal_start (Some 500)).
  reflexivity.
Defined.

(** * Sizes *)

Lemma applyState_stores_sizes (newState : NewState) (st : State) :
  wf_newState newState ->
  (forall s, In (Foriginal s) newState -> original (applyState st newState) = s) /\
  (forall s, In (Fcontainer s) newState -> container (applyState st newState) = s).
Proof.
  revert st. unfold wf_newState.
  induction newState as [|f rest IH]; intros st Hwf.
  - split; intros s [].
  - cbn [map] in Hwf. apply NoDup_cons_iff in Hwf. destruct Hwf as [Hnotin Hwf].
    destruct (IH (applyField st f) Hwf) as [Io Ic].
    rewrite applyState_cons. split.
    + intros s [->|Hin]; [|apply Io; exact Hin].
      destruct (applyState_frame rest (applyField st (Foriginal s))) as (_ & _ & Fo & _).
      rewrite Fo; [reflexivity | apply hasOwnProperty_notin; exact Hnotin].
    + intros s [->|Hin]; [|apply Ic; exact Hin].
      destruct (applyState_frame rest (applyField st (Fcontainer s))) as (_ & _ & _ & Fc).
      rewrite Fc; [reflexivity | apply hasOwnProperty_notin; exact Hnotin].
Qed.

(** X17.  Sizes have no handler.  [setState] stores the image size and
    the container size of the object exactly as given, whatever they are
    and wherever they are listed, and leaves a size the object does not
    carry as it was. *)
Theorem sizes_stored_verbatim (st : State) (newState : NewState) :
  wf_newState newState ->
  (forall s, In (Foriginal s) newState -> original (setState st newState) = s) /\
  (forall s, In (Fcontainer s) newState -> container (setState st newState) = s) /\
  (hasOwnProperty newState Koriginal = false ->
     original (setState st newState) = original st) /\
  (hasOwnProperty newState Kcontainer = false ->
     container (setState st newState) = container st).
Proof.
  intro Hwf.
  destruct (setState_fields st newState) as (Fo & Fc & _ & _).
  destruct (applyState_stores_sizes newState st Hwf) as [So Sc].
  destruct (applyState_frame newState st) as (_ & _ & Ko & Kc).
  rewrite Fo, Fc. auto.
Qed.

Lemma sizes_stored_verbatim_witness :
  original (setState legal_start
              [Fzoom (Some 3); Foriginal (mkSize (Some (-4)) None);
               Fcontainer (mkSize (Some 0) (Some 0))])
    = mkSize (Some (-4)) None /\
  container (setState legal_start
               [Fzoom (Some 3); Foriginal (mkSize (Some (-4)) None);
                Fcontainer (mkSize (Some 0) (Some 0))])
    = mkSize (Some 0) (Some 0).
Proof.
  assert (Hwf : wf_newState [Fzoom (Some 3); Foriginal (mkSize (Some (-4)) None);
                             Fcontainer (mkSize (Some 0) (Some 0))]).
  { unfold wf_newState. cbn. repeat constructor; cbn; intuition discriminate. }
  destruct (sizes_stored_verbatim legal_start
              [Fzoom (Some 3); Foriginal (mkSize (Some (-4)) None);
               Fcontainer (mkSize (Some 0) (Some 0))] Hwf) as (Ho & Hc & _).
  split; [apply Ho | apply Hc]; cbn; auto.
Defined.

(** * Binary64 *)

Lemma b64_crossing_values :
  B64.calcPos_min B64.crossing (B64.of_Z 50) B64.c102_1
    = S754_finite false 7332423143312588 (-48) /\
  B64.calcPos_max B64.crossing (B64.of_Z 50) B64.c102_1
    = S754_finite false 7332423143312584 (-48) /\
  B64.getZoom B64.crossing (B64.of_Z 1) = B64.zoom B64.crossing.
Proof. vm_compute. repeat split. Qed.

(** ** Comparison of binary64 numbers *)

Lemma SFcompare_refl (a : spec_float) :
  B64.is_nan a = false -> SFcompare a a = Some Eq.
Proof.
  destruct a as [s|s| |s m e]; cbn; try discriminate; intros _.
  - reflexivity.
  - destruct s; reflexivity.
  - rewrite Z.compare_refl.
    change (Pos.compare_cont Eq m m) with (Pos.compare m m).
    rewrite Pos.compare_refl. destruct s; reflexivity.
Qed.

Lemma SFcompare_antisym (a b : spec_float) :
  SFcompare b a = option_map CompOpp (SFcompare a b).
Proof.
  destruct a as [s1|s1| |s1 m1 e1], b as [s2|s2| |s2 m2 e2]; cbn;
    try reflexivity;
    try (destruct s1; reflexivity);
    try (destruct s2; reflexivity);
    try (destruct s1, s2; reflexivity).
  change (Pos.compare_cont Eq m2 m1) with (Pos.compare m2 m1).
  change (Pos.compare_cont Eq m1 m2) with (Pos.compare m1 m2).
  rewrite (Z.compare_antisym e1 e2), (Pos.compare_antisym m1 m2).
  destruct s1, s2; cbn; try reflexivity;
    destruct (e1 ?= e2)%Z; cbn; try reflexivity;
    destruct (m1 ?= m2)%positive; reflexivity.
Qed.

Lemma SFcompare_Eq_inv (a b : spec_float) :
  SFcompare a b = Some Eq ->
  a = b \/ (B64.is_zero a = true /\ B64.is_zero b = true).
Proof.
  destruct a as [s1|s1| |s1 m1 e1], b as [s2|s2| |s2 m2 e2]; cbn;
    try discriminate; try (destruct s1; discriminate);
    try (destruct s2; discriminate).
  - intros _. right. split; reflexivity.
  - destruct s1, s2; try discriminate; intros _; left; reflexivity.
  - change (Pos.compare_cont Eq m1 m2) with (Pos.compare m1 m2).
    destruct s1, s2; try discriminate;
      destruct (e1 ?= e2)%Z eqn:Ee; try discriminate;
      destruct (m1 ?= m2)%positive eqn:Em; try discriminate;
      intros _; apply Z.compare_eq in Ee; apply Pos.compare_eq in Em;
      subst; left; reflexivity.
Qed.

Lemma SFcompare_zero_l (a a' c : spec_float) :
  B64.is_zero a = true -> B64.is_zero a' = true ->
  SFcompare a c = SFcompare a' c.
Proof.
  destruct a; try discriminate. destruct a'; try discriminate.
  intros _ _. destruct c; reflexivity.
Qed.

Lemma SFcompare_zero_r (a a' c : spec_float) :
  B64.is_zero a = true -> B64.is_zero a' = true ->
  SFcompare c a = SFcompare c a'.
Proof.
  intros Ha Ha'. rewrite (SFcompare_antisym a c), (SFcompare_antisym a' c).
  rewrite (SFcompare_zero_l a a' c Ha Ha'). reflexivity.
Qed.

Lemma SFcompare_some (a b : spec_float) :
  B64.is_nan a = false -> B64.is_nan b = false ->
  exists c, SFcompare a b = Some c.
Proof.
  destruct a, b; cbn; try discriminate; eauto.
Qed.

Lemma Math_max_cases (a b : spec_float) : max_cases a b (B64.Math_max a b).
Proof.
  unfold B64.Math_max.
  destruct (B64.is_nan a) eqn:Na; [apply max_nan; rewrite Na; reflexivity|].
  destruct (B64.is_nan b) eqn:Nb;
    [apply max_nan; rewrite Na, Nb; reflexivity|].
  cbn [orb]. destruct (SFcompare_some a b Na Nb) as [c Hc].
  pose proof (SFcompare_antisym a b) as Hanti. rewrite Hc in Hanti. cbn in Hanti.
  unfold SFltb. rewrite Hc, Hanti.
  destruct c; cbn.
  - apply max_eq; assumption.
  - apply max_lt; assumption.
  - apply max_gt; assumption.
Qed.

Lemma Math_min_cases (a b : spec_float) : min_cases a b (B64.Math_min a b).
Proof.
  unfold B64.Math_min.
  destruct (B64.is_nan a) eqn:Na; [apply min_nan; rewrite Na; reflexivity|].
  destruct (B64.is_nan b) eqn:Nb;
    [apply min_nan; rewrite Na, Nb; reflexivity|].
  cbn [orb]. destruct (SFcompare_some a b Na Nb) as [c Hc].
  pose proof (SFcompare_antisym a b) as Hanti. rewrite Hc in Hanti. cbn in Hanti.
  unfold SFltb. rewrite Hc, Hanti.
  destruct c; cbn.
  - apply min_eq; assumption.
  - apply min_lt; assumption.
  - apply min_gt; assumption.
Qed.

Lemma if_same (A : Type) (b : bool) (v : A) : (if b then v else v) = v.
Proof. destruct b; reflexivity. Qed.

Lemma Math_max_same (a : spec_float) : B64.Math_max a a = a.
Proof.
  destruct (Math_max_cases a a) as [H | Na _ H | Na _ H | Na _ H].
  - rewrite orb_diag in H. destruct a; try discriminate. reflexivity.
  - rewrite (SFcompare_refl a Na) in H. discriminate.
  - reflexivity.
  - apply if_same.
Qed.

Lemma Math_min_same (a : spec_float) : B64.Math_min a a = a.
Proof.
  destruct (Math_min_cases a a) as [H | Na _ H | Na _ H | Na _ H].
  - rewrite orb_diag in H. destruct a; try discriminate. reflexivity.
  - reflexivity.
  - reflexivity.
  - apply if_same.
Qed.

Lemma nle_of_compare (a b : spec_float) (c : comparison) :
  SFcompare a b = Some c -> c <> Gt -> B64.nle a b = true.
Proof.
  intros H Hc. unfold B64.nle, SFleb. rewrite H. destruct c; congruence.
Qed.

Lemma nle_refl (a : spec_float) : B64.is_nan a = false -> B64.nle a a = true.
Proof.
  intro H. apply (nle_of_compare a a Eq); [apply SFcompare_refl; exact H | discriminate].
Qed.

Lemma compare_flip (a b : spec_float) (c : comparison) :
  SFcompare a b = Some c -> SFcompare b a = Some (CompOpp c).
Proof. intro H. rewrite SFcompare_antisym, H. reflexivity. Qed.

(** [Math.max] is at least each of its arguments, [Math.min] at most. *)
Lemma Math_max_ge_r (a b : spec_float) :
  B64.is_nan a = false -> B64.is_nan b = false ->
  B64.is_nan (B64.Math_max a b) = false /\
  B64.nle b (B64.Math_max a b) = true /\
  B64.nle a (B64.Math_max a b) = true /\
  (B64.Math_max a b = a \/ B64.Math_max a b = b).
Proof.
  intros Na Nb.
  destruct (Math_max_cases a b) as [H | _ _ H | _ _ H | _ _ H].
  - rewrite Na, Nb in H. discriminate.
  - repeat split; auto using nle_refl.
    apply (nle_of_compare a b Lt); [exact H | discriminate].
  - repeat split; auto using nle_refl.
    apply (nle_of_compare b a Lt); [exact (compare_flip _ _ _ H) | discriminate].
  - destruct (B64.is_neg_zero a); repeat split; auto using nle_refl.
    + apply (nle_of_compare a b Eq); [exact H | discriminate].
    + apply (nle_of_compare b a Eq); [exact (compare_flip _ _ _ H) | discriminate].
Qed.

Lemma Math_min_le_r (a b : spec_float) :
  B64.is_nan a = false -> B64.is_nan b = false ->
  B64.is_nan (B64.Math_min a b) = false /\
  B64.nle (B64.Math_min a b) b = true /\
  (B64.Math_min a b = a \/ B64.Math_min a b = b).
Proof.
  intros Na Nb.
  destruct (Math_min_cases a b) as [H | _ _ H | _ _ H | _ _ H].
  - rewrite Na, Nb in H. discriminate.
  - repeat split; auto.
    apply (nle_of_compare a b Lt); [exact H | discriminate].
  - repeat split; auto using nle_refl.
  - destruct (B64.is_neg_zero b); repeat split; auto using nle_refl.
    apply (nle_of_compare a b Eq); [exact H | discriminate].
Qed.

Ltac key_dir H :=
  first [ reflexivity
        | discriminate H
        | exfalso; cbn in H; lia
        | cbn; lia
        | exfalso; inversion H; subst; lia
        | inversion H; subst; reflexivity
        | subst; reflexivity
        | subst; cbn; lia ].

Lemma SFcompare_key (a b : spec_float) :
  B64.is_nan a = false -> B64.is_nan b = false ->
  (SFcompare a b = Some Lt <-> key_lt (float_key a) (float_key b)) /\
  (SFcompare a b = Some Eq <-> float_key a = float_key b).
Proof.
  intros Na Nb.
  destruct a as [s1|s1| |s1 m1 e1], b as [s2|s2| |s2 m2 e2];
    try discriminate; cbn [SFcompare float_key key_lt].
  all: try change (Pos.compare_cont Eq m1 m2) with (Pos.compare m1 m2).
  all: try destruct s1; try destruct s2.
  all: try (destruct (Z.compare_spec e1 e2) as [He|He|He];
            destruct (Pos.compare_spec m1 m2) as [Hm|Hm|Hm];
            cbn [CompOpp]).
  all: split; split; intro Hk; key_dir Hk.
Qed.

Lemma nlt_key (a b : spec_float) :
  B64.is_nan a = false -> B64.is_nan b = false ->
  (B64.nlt a b = true <-> key_lt (float_key a) (float_key b)).
Proof.
  intros Na Nb. destruct (SFcompare_key a b Na Nb) as [H _].
  unfold B64.nlt, SFltb. rewrite <- H.
  destruct (SFcompare a b) as [[| |]|]; split; intro E; congruence.
Qed.

Lemma nle_key (a b : spec_float) :
  B64.is_nan a = false -> B64.is_nan b = false ->
  (B64.nle a b = true <->
   key_lt (float_key a) (float_key b) \/ float_key a = float_key b).
Proof.
  intros Na Nb. destruct (SFcompare_key a b Na Nb) as [H1 H2].
  unfold B64.nle, SFleb. rewrite <- H1, <- H2.
  destruct (SFcompare a b) as [[| |]|]; split; intro E; auto;
    try discriminate; destruct E; congruence.
Qed.

Lemma nle_nlt_trans (a b c : spec_float) :
  B64.is_nan a = false -> B64.is_nan b = false -> B64.is_nan c = false ->
  B64.nle a b = true -> B64.nlt b c = true -> B64.nlt a c = true.
Proof.
  intros Na Nb Nc Hab Hbc.
  apply (nle_key a b Na Nb) in Hab. apply (nlt_key b c Nb Nc) in Hbc.
  apply (nlt_key a c Na Nc). revert Hab Hbc.
  destruct (float_key a) as [[a1 a2] a3], (float_key b) as [[b1 b2] b3],
    (float_key c) as [[c1 c2] c3].
  unfold key_lt. intros [H|H] H'; [|injection H as -> -> ->]; lia.
Qed.

Lemma nle_trans (a b c : spec_float) :
  B64.is_nan a = false -> B64.is_nan b = false -> B64.is_nan c = false ->
  B64.nle a b = true -> B64.nle b c = true -> B64.nle a c = true.
Proof.
  intros Na Nb Nc Hab Hbc.
  apply (nle_key a b Na Nb) in Hab. apply (nle_key b c Nb Nc) in Hbc.
  apply (nle_key a c Na Nc). revert Hab Hbc.
  destruct (float_key a) as [[a1 a2] a3], (float_key b) as [[b1 b2] b3],
    (float_key c) as [[c1 c2] c3].
  unfold key_lt. intros [H|H] [H'|H'];
    try (injection H as -> -> ->); try (injection H' as -> -> ->);
    first [ left; lia | right; reflexivity ].
Qed.

Lemma nlt_max_r (a b : spec_float) :
  B64.is_nan a = false -> B64.is_nan b = false ->
  B64.nlt a b = true -> B64.Math_max a b = b.
Proof.
  intros Na Nb H. unfold B64.Math_max. rewrite Na, Nb. cbn [orb].
  unfold B64.nlt in H. rewrite H. reflexivity.
Qed.

(** ** The bounds of [calcPos] in binary64 *)


(** The value [calcPos] returns, against its two bounds. *)
Lemma b64_calcPos_between (st : B64.State) (pos s c : spec_float) :
  B64.is_nan pos = false ->
  B64.is_nan (B64.calcPos_min st s c) = false ->
  B64.is_nan (B64.calcPos_max st s c) = false ->
  B64.nle (B64.calcPos_min st s c) (B64.calcPos st pos s c) = true /\
  (B64.nle (B64.calcPos_min st s c) (B64.calcPos_max st s c) = true ->
   B64.nle (B64.calcPos st pos s c) (B64.calcPos_max st s c) = true).
Proof.
  intros Np Nlo Nhi.
  change (B64.calcPos st pos s c)
    with (B64.Math_max (B64.Math_min pos (B64.calcPos_max st s c))
                       (B64.calcPos_min st s c)).
  destruct (Math_min_le_r pos _ Np Nhi) as (Nt & Hthi & _).
  destruct (Math_max_ge_r _ _ Nt Nlo) as (_ & Hlor & _ & Hr).
  split; [exact Hlor|].
  intro Hle. destruct Hr as [-> | ->]; assumption.
Qed.



(** ** Idempotence of the handlers in binary64 *)

Lemma below_irrefl_zero (a b : spec_float) :
  B64.is_neg_zero a = true -> B64.is_neg_zero b = true -> a = b.
Proof.
  destruct a as [[|]| | |]; try discriminate.
  destruct b as [[|]| | |]; try discriminate. reflexivity.
Qed.

Lemma Math_max_below (a b : spec_float) :
  B64.is_nan a = false -> B64.is_nan b = false ->
  B64.Math_max a b = if B64.below a b then b else a.
Proof.
  intros Na Nb. unfold B64.Math_max, B64.below. rewrite Na, Nb. cbn [orb].
  destruct (SFcompare_some a b Na Nb) as [c Hc].
  pose proof (compare_flip a b c Hc) as Hf.
  unfold SFltb, SFeqb. rewrite Hc, Hf.
  destruct c; cbn; try reflexivity.
  destruct (B64.is_neg_zero a) eqn:Za, (B64.is_neg_zero b) eqn:Zb; cbn;
    try reflexivity.
  symmetry. apply below_irrefl_zero; assumption.
Qed.

Lemma Math_min_below (a b : spec_float) :
  B64.is_nan a = false -> B64.is_nan b = false ->
  B64.Math_min a b = if B64.below b a then b else a.
Proof.
  intros Na Nb. unfold B64.Math_min, B64.below. rewrite Na, Nb. cbn [orb].
  destruct (SFcompare_some a b Na Nb) as [c Hc].
  pose proof (compare_flip a b c Hc) as Hf.
  unfold SFltb, SFeqb. rewrite Hc, Hf.
  destruct c; cbn; try reflexivity.
  destruct (B64.is_neg_zero a) eqn:Za, (B64.is_neg_zero b) eqn:Zb; cbn;
    try reflexivity.
  symmetry. apply below_irrefl_zero; assumption.
Qed.

Lemma Math_max_nan_l (b : spec_float) : B64.Math_max B64.NaN b = B64.NaN.
Proof. reflexivity. Qed.

Lemma Math_max_nan_r (a : spec_float) : B64.Math_max a B64.NaN = B64.NaN.
Proof. unfold B64.Math_max. rewrite orb_true_r. reflexivity. Qed.

Lemma Math_min_nan_l (b : spec_float) : B64.Math_min B64.NaN b = B64.NaN.
Proof. reflexivity. Qed.

Lemma Math_min_nan_r (a : spec_float) : B64.Math_min a B64.NaN = B64.NaN.
Proof. unfold B64.Math_min. rewrite orb_true_r. reflexivity. Qed.

Lemma is_nan_true (a : spec_float) : B64.is_nan a = true -> a = B64.NaN.
Proof. destruct a; try discriminate. reflexivity. Qed.

Lemma Math_max_absorb (a b : spec_float) :
  B64.Math_max (B64.Math_max a b) b = B64.Math_max a b.
Proof.
  destruct (B64.is_nan a) eqn:Na;
    [apply is_nan_true in Na; subst; reflexivity|].
  destruct (B64.is_nan b) eqn:Nb;
    [apply is_nan_true in Nb; subst; rewrite !Math_max_nan_r; reflexivity|].
  rewrite (Math_max_below a b Na Nb).
  destruct (B64.below a b) eqn:L.
  - apply Math_max_same.
  - rewrite (Math_max_below a b Na Nb), L. reflexivity.
Qed.

Lemma clamp_idempotent (p lo hi : spec_float) :
  B64.clamp (B64.clamp p lo hi) lo hi = B64.clamp p lo hi.
Proof.
  unfold B64.clamp.
  destruct (B64.is_nan lo) eqn:Nlo;
    [apply is_nan_true in Nlo; subst; rewrite !Math_max_nan_r; reflexivity|].
  destruct (B64.is_nan hi) eqn:Nhi;
    [apply is_nan_true in Nhi; subst; rewrite !Math_min_nan_r; reflexivity|].
  destruct (B64.is_nan p) eqn:Np;
    [apply is_nan_true in Np; subst; reflexivity|].
  rewrite (Math_min_below p hi Np Nhi).
  destruct (B64.below hi p) eqn:L1.
  - (* the request is above [max] *)
    rewrite (Math_max_below hi lo Nhi Nlo).
    destruct (B64.below hi lo) eqn:L2.
    + rewrite (Math_min_below lo hi Nlo Nhi), L2, (Math_max_below hi lo Nhi Nlo), L2. reflexivity.
    + rewrite Math_min_same, (Math_max_below hi lo Nhi Nlo), L2. reflexivity.
  - rewrite (Math_max_below p lo Np Nlo).
    destruct (B64.below p lo) eqn:L2.
    + rewrite (Math_min_below lo hi Nlo Nhi).
      destruct (B64.below hi lo) eqn:L3.
      * rewrite (Math_max_below hi lo Nhi Nlo), L3. reflexivity.
      * apply Math_max_same.
    + rewrite (Math_min_below p hi Np Nhi), L1,
        (Math_max_below p lo Np Nlo), L2. reflexivity.
Qed.

(** X13.  The pan handler is idempotent in binary64: whatever the
    numbers (also [NaN], infinities and crossed bounds), [calcPos]
    applied to the value it returned returns that value. *)
Theorem b64_calcPos_idempotent (st : B64.State) (pos s c : spec_float) :
  B64.calcPos st (B64.calcPos st pos s c) s c = B64.calcPos st pos s c.
Proof.
  change (B64.calcPos st (B64.calcPos st pos s c) s c)
    with (B64.clamp (B64.clamp pos (B64.calcPos_min st s c) (B64.calcPos_max st s c))
                    (B64.calcPos_min st s c) (B64.calcPos_max st s c)).
  apply clamp_idempotent.
Qed.

Lemma b64_getZoom_idempotent (st : B64.State) (z : spec_float) :
  B64.getZoom st (B64.getZoom st z) = B64.getZoom st z.
Proof.
  unfold B64.getZoom. destruct (B64.unmeasured st); [reflexivity|].
  apply Math_max_absorb.
Qed.

Lemma b64_getPosition_idempotent (st : B64.State) (p : B64.Pos) :
  B64.getPosition st (B64.getPosition st p) = B64.getPosition st p.
Proof.
  unfold B64.getPosition. destruct (B64.unmeasured st); [reflexivity|].
  cbn [B64.x B64.y]. f_equal; apply clamp_idempotent.
Qed.

(** The zoom handler and then the pan handler leave a stable state. *)
Lemma b64_handlers_stable (st : B64.State) (z : spec_float) (p : B64.Pos) :
  let stz := B64.set_zoom st (B64.getZoom st z) in
  B64.stable (B64.set_position stz (B64.getPosition stz p)).
Proof.
  intros stz. split.
  - change (B64.getZoom st (B64.getZoom st z) = B64.getZoom st z).
    apply b64_getZoom_idempotent.
  - change (B64.getPosition stz (B64.getPosition stz p) = B64.getPosition stz p).
    apply b64_getPosition_idempotent.
Qed.

Lemma b64_stable_setState (st : B64.State) :
  B64.stable st <-> B64.setState st [] = st.
Proof.
  assert (E : B64.setState st [] =
              B64.set_position (B64.set_zoom st (B64.getZoom st (B64.zoom st)))
                (B64.getPosition (B64.set_zoom st (B64.getZoom st (B64.zoom st)))
                   (B64.position st))) by reflexivity.
  rewrite E. clear E. split.
  - intros [Hz Hp]. rewrite Hz.
    change (B64.getPosition (B64.set_zoom st (B64.zoom st)) (B64.position st))
      with (B64.getPosition st (B64.position st)).
    rewrite Hp. destruct st. reflexivity.
  - intro H.
    assert (Hz : B64.getZoom st (B64.zoom st) = B64.zoom st).
    { apply (f_equal B64.zoom) in H. exact H. }
    split; [exact Hz|].
    apply (f_equal B64.position) in H. cbn [B64.position B64.set_position] in H.
    rewrite Hz in H. exact H.
Qed.

Lemma b64_hasOwnProperty_app (a b : B64.NewState) (k : Key) :
  B64.hasOwnProperty (a ++ b) k = B64.hasOwnProperty a k || B64.hasOwnProperty b k.
Proof. unfold B64.hasOwnProperty. apply existsb_app. Qed.

Lemma b64_applyState_app (st : B64.State) (a b : B64.NewState) :
  B64.applyState st (a ++ b) = B64.applyState (B64.applyState st a) b.
Proof. unfold B64.applyState. apply fold_left_app. Qed.

Lemma b64_applyState_sizes (sizes : B64.NewState) (st : B64.State) :
  Forall B64.size_field sizes ->
  B64.hasOwnProperty sizes Kzoom = false /\
  B64.hasOwnProperty sizes Kposition = false /\
  B64.zoom (B64.applyState st sizes) = B64.zoom st /\
  B64.position (B64.applyState st sizes) = B64.position st.
Proof.
  intro Hs. revert st. induction Hs as [|f rest Hf Hrest IH]; intro st.
  - cbn. auto.
  - destruct (IH (B64.applyField st f)) as (I1 & I2 & I3 & I4).
    change (B64.applyState st (f :: rest))
      with (B64.applyState (B64.applyField st f) rest).
    destruct f as [p|s|s|z]; cbn in Hf; try contradiction;
      (split; [exact I1|]); (split; [exact I2|]);
      (split; [rewrite I3; reflexivity | rewrite I4; reflexivity]).
Qed.

(** An ordered call is its size fields, then the two handlers. *)
Lemma b64_ordered_call_shape (st : B64.State) (newState : B64.NewState) :
  B64.ordered_call newState ->
  exists st' z p,
    B64.setState st newState =
      B64.set_position (B64.set_zoom st' (B64.getZoom st' z))
        (B64.getPosition (B64.set_zoom st' (B64.getZoom st' z)) p).
Proof.
  intros [sizes Hs | sizes z Hs | sizes z p Hs];
    destruct (b64_applyState_sizes sizes st Hs) as (Kz & Kp & Fz & Fp).
  - exists (B64.applyState st sizes), (B64.zoom st), (B64.position st).
    unfold B64.setState. cbv zeta. rewrite Kz, Kp.
    cbn [B64.applyState fold_left B64.applyField].
    fold (B64.applyState st sizes).
    rewrite Fz. cbn [B64.position B64.set_zoom]. rewrite Fp. reflexivity.
  - exists (B64.applyState st sizes), z, (B64.position st).
    unfold B64.setState. cbv zeta.
    rewrite !b64_hasOwnProperty_app, Kz, Kp, b64_applyState_app.
    cbn [B64.hasOwnProperty existsb B64.key Key_eqb orb B64.applyState
         fold_left B64.applyField].
    fold (B64.applyState st sizes). cbn [B64.position B64.set_zoom].
    rewrite Fp. reflexivity.
  - exists (B64.applyState st sizes), z, p.
    unfold B64.setState. cbv zeta.
    rewrite !b64_hasOwnProperty_app, Kz, Kp, b64_applyState_app.
    cbn [B64.hasOwnProperty existsb B64.key Key_eqb orb B64.applyState
         fold_left B64.applyField].
    fold (B64.applyState st sizes). reflexivity.
Qed.

Lemma b64_ordered_call_stable (st : B64.State) (newState : B64.NewState) :
  B64.ordered_call newState -> B64.stable (B64.setState st newState).
Proof.
  intro Hord.
  destruct (b64_ordered_call_shape st newState Hord) as (st' & z & p & ->).
  apply b64_handlers_stable.
Qed.

(** A pan alone, in a stable state: the zoom stays as it is, the pan is
    what the pan handler makes of the request, and the state is stable
    again. *)
Lemma b64_position_call (st : B64.State) (p : B64.Pos) :
  B64.stable st ->
  B64.setState st [B64.Fposition p] = B64.set_position st (B64.getPosition st p) /\
  B64.stable (B64.setState st [B64.Fposition p]).
Proof.
  intros [Hz Hp].
  assert (E : B64.setState st [B64.Fposition p] =
              B64.set_zoom (B64.set_position st (B64.getPosition st p))
                           (B64.getZoom st (B64.zoom st))) by reflexivity.
  rewrite E, Hz.
  assert (E' : B64.set_zoom (B64.set_position st (B64.getPosition st p)) (B64.zoom st)
               = B64.set_position st (B64.getPosition st p)) by reflexivity.
  rewrite E'. split; [reflexivity|]. split.
  - exact Hz.
  - change (B64.getPosition st (B64.getPosition st p) = B64.getPosition st p).
    apply b64_getPosition_idempotent.
Qed.

(** In a stable state the zoom is at or above the floor. *)
Lemma b64_stable_floor (st : B64.State) :
  B64.stable st -> B64.unmeasured st = false ->
  B64.is_nan (B64.zoom st) = false ->
  B64.nle (B64.getZoom_min st) (B64.zoom st) = true.
Proof.
  intros [Hz _] Hm Nz. unfold B64.getZoom in Hz. rewrite Hm in Hz.
  destruct (B64.is_nan (B64.getZoom_min st)) eqn:Nm.
  - apply is_nan_true in Nm. rewrite Nm, Math_max_nan_r in Hz.
    rewrite <- Hz in Nz. discriminate.
  - destruct (Math_max_ge_r _ _ Nz Nm) as (_ & H & _). rewrite Hz in H. exact H.
Qed.

Lemma b64_stable_settled (st : B64.State) :
  B64.stable st -> B64.unmeasured st = false ->
  B64.zoom_floor st /\ B64.pan_clamped st.
Proof.
  intros Hst Hm. split.
  - intro Nz. apply b64_stable_floor; assumption.
  - destruct Hst as [_ Hp]. unfold B64.getPosition in Hp. rewrite Hm in Hp.
    apply (f_equal B64.x) in Hp as Hx. apply (f_equal B64.y) in Hp as Hy.
    cbn [B64.x B64.y] in Hx, Hy.
    split; intros Nv Nlo Nhi.
    + destruct (b64_calcPos_between st (B64.x (B64.position st)) _ _ Nv Nlo Nhi)
        as (H1 & H2).
      rewrite Hx in H1, H2. split; assumption.
    + destruct (b64_calcPos_between st (B64.y (B64.position st)) _ _ Nv Nlo Nhi)
        as (H1 & H2).
      rewrite Hy in H1, H2. split; assumption.
Qed.

(** X3.  Ordered calls settle the state, in binary64.  From any state
    and for any values, [setState] with an object that lists its size
    fields first, then a zoom, then a pan (a pan after the size fields
    only together with a zoom) returns a state on which both handlers
    are the identity, so that [setState({})] leaves it as it is; when
    its image is measured, its zoom (if a number) is at or above the
    floor, and each pan coordinate that is a number between numeric
    bounds is never below [min] and is at most [max] whenever the
    computed bounds do not cross. *)
Theorem b64_ordered_call_settles (st : B64.State) (newState : B64.NewState) :
  B64.ordered_call newState ->
  B64.stable (B64.setState st newState) /\
  B64.setState (B64.setState st newState) [] = B64.setState st newState /\
  (B64.unmeasured (B64.setState st newState) = false ->
   B64.zoom_floor (B64.setState st newState) /\
   B64.pan_clamped (B64.setState st newState)).
Proof.
  intro Hord. pose proof (b64_ordered_call_stable st newState Hord) as Hst.
  split; [exact Hst|]. split.
  - apply b64_stable_setState. exact Hst.
  - apply b64_stable_settled. exact Hst.
Qed.

Lemma b64_ordered_call_settles_witness :
  B64.stable (B64.setState B64.crossing
                [B64.Fcontainer (B64.mkSize (B64.of_Z 300) (B64.of_Z 200));
                 B64.Fzoom (B64.of_Z 2);
                 B64.Fposition (B64.mkPos (B64.of_Z 40) (B64.of_Z (-4000)))]) /\
  B64.setState (B64.setState B64.crossing
                [B64.Fcontainer (B64.mkSize (B64.of_Z 300) (B64.of_Z 200));
                 B64.Fzoom (B64.of_Z 2);
                 B64.Fposition (B64.mkPos (B64.of_Z 40) (B64.of_Z (-4000)))]) []
  = B64.setState B64.crossing
                [B64.Fcontainer (B64.mkSize (B64.of_Z 300) (B64.of_Z 200));
                 B64.Fzoom (B64.of_Z 2);
                 B64.Fposition (B64.mkPos (B64.of_Z 40) (B64.of_Z (-4000)))].
Proof.
  destruct (b64_ordered_call_settles B64.crossing
              [B64.Fcontainer (B64.mkSize (B64.of_Z 300) (B64.of_Z 200));
               B64.Fzoom (B64.of_Z 2);
               B64.Fposition (B64.mkPos (B64.of_Z 40) (B64.of_Z (-4000)))])
    as (H1 & H2 & _).
  - apply (B64.ordered_zoom_position
             [B64.Fcontainer (B64.mkSize (B64.of_Z 300) (B64.of_Z 200))]).
    repeat constructor.
  - split; assumption.
Defined.

(** ** The widget in binary64 *)

Lemma b64_widget_setState_ok (w : B64.Widget) (newState : B64.NewState) :
  B64.stable (B64.setState (B64.state w) newState) ->
  B64.widget_ok (B64.widget_setState w newState).
Proof. intro H. split; [exact H | reflexivity]. Qed.

Lemma b64_unmeasured_stable (st : B64.State) :
  B64.unmeasured st = true -> B64.stable st.
Proof.
  intro Hm. unfold B64.stable, B64.getZoom, B64.getPosition. rewrite Hm.
  split; reflexivity.
Qed.

Lemma b64_step_keeps_ok (w : B64.Widget) (e : B64.Event) :
  B64.widget_ok w -> B64.safe_event e -> B64.widget_ok (B64.step w e).
Proof.
  intros [Hst Ht] Hsafe.
  destruct e as [ex ey | ex ey ox oy | | path | url | rect | newState];
    cbn [B64.step].
  - split; assumption.
  - unfold B64.onmousemove. destruct (B64.dragging w) as [d|].
    + apply b64_widget_setState_ok. apply b64_position_call. exact Hst.
    + split; assumption.
  - split; assumption.
  - destruct path as [[|target rest]|]; cbn [B64.onload]; try (split; assumption).
    apply b64_widget_setState_ok. apply b64_ordered_call_stable.
    apply B64.ordered_sizes. repeat constructor.
  - split; [|exact Ht]. apply b64_unmeasured_stable. reflexivity.
  - apply b64_widget_setState_ok. apply b64_ordered_call_stable.
    apply B64.ordered_sizes. repeat constructor.
  - apply b64_widget_setState_ok. destruct Hsafe as [Hord | [p ->]].
    + apply b64_ordered_call_stable. exact Hord.
    + apply b64_position_call. exact Hst.
Qed.

Lemma b64_run_keeps_ok (events : list B64.Event) (w : B64.Widget) :
  B64.widget_ok w -> Forall B64.safe_event events ->
  B64.widget_ok (B64.run w events).
Proof.
  revert w. induction events as [|e rest IH]; intros w Hok Hsafe.
  - exact Hok.
  - inversion Hsafe; subst. cbn. apply IH; [apply b64_step_keeps_ok|]; assumption.
Qed.

Lemma b64_constructed_ok (rect : B64.Size) : B64.widget_ok (B64.constructed rect).
Proof.
  apply b64_widget_setState_ok. apply b64_ordered_call_stable.
  apply B64.ordered_sizes. repeat constructor.
Qed.

(** X5.  The invariant of the widget, in binary64.  After construction
    and any sequence of mouse events, load events of the image (with or
    without a path), calls of [load] and [updateContainerSize], and
    calls of [setState] with an ordered object or with a pan alone, for
    any values: both handlers are the identity on the state, so that
    [setState({})] leaves it as it is, and the [transform] style of the
    image is the one of the stored pan and zoom; when the image is
    measured, the zoom (if a number) is at or above the floor, and each
    pan coordinate that is a number between numeric bounds is never
    below [min] and is at most [max] whenever the computed bounds do not
    cross. *)
Theorem b64_widget_invariant (rect : B64.Size) (events : list B64.Event) :
  Forall B64.safe_event events ->
  B64.setState (B64.state (B64.run (B64.constructed rect) events)) []
    = B64.state (B64.run (B64.constructed rect) events) /\
  B64.transform (B64.run (B64.constructed rect) events)
    = Some (B64.update (B64.state (B64.run (B64.constructed rect) events))) /\
  (B64.unmeasured (B64.state (B64.run (B64.constructed rect) events)) = false ->
   B64.zoom_floor (B64.state (B64.run (B64.constructed rect) events)) /\
   B64.pan_clamped (B64.state (B64.run (B64.constructed rect) events))).
Proof.
  intro Hsafe.
  destruct (b64_run_keeps_ok events _ (b64_constructed_ok rect) Hsafe) as [Hst Ht].
  split; [apply b64_stable_setState; exact Hst|].
  split; [exact Ht|]. apply b64_stable_settled. exact Hst.
Qed.

Lemma b64_widget_invariant_witness :
  B64.setState
    (B64.state (B64.run (B64.constructed (B64.mkSize B64.c102_1 (B64.of_Z 60)))
       [B64.ImageLoad (Some [B64.mkSize (B64.of_Z 50) (B64.of_Z 20)]);
        B64.MouseDown (B64.of_Z 10) (B64.of_Z 10);
        B64.MouseMove (B64.of_Z 50) (B64.of_Z 60) (B64.of_Z 0) (B64.of_Z 0);
        B64.CallSetState [B64.Fzoom (B64.of_Z 3)];
        B64.ImageLoad None; B64.MouseUp])) []
  = B64.state (B64.run (B64.constructed (B64.mkSize B64.c102_1 (B64.of_Z 60)))
       [B64.ImageLoad (Some [B64.mkSize (B64.of_Z 50) (B64.of_Z 20)]);
        B64.MouseDown (B64.of_Z 10) (B64.of_Z 10);
        B64.MouseMove (B64.of_Z 50) (B64.of_Z 60) (B64.of_Z 0) (B64.of_Z 0);
        B64.CallSetState [B64.Fzoom (B64.of_Z 3)];
        B64.ImageLoad None; B64.MouseUp]).
Proof.
  apply (b64_widget_invariant (B64.mkSize B64.c102_1 (B64.of_Z 60))).
  repeat (constructor; [try exact I|]); [|repeat constructor].
  left. apply (B64.ordered_zoom [] (B64.of_Z 3)). constructor.
Defined.

(** X8.  Where a drag puts the image, in binary64.  In a widget on
    whose state both handlers are the identity, a press at
    [(e0x, e0y)] followed by a move to [(e1x, e1y)] stores what the pan
    handler makes, in the state of the press, of
    [(e1 + pageOffset) - (e0 - pan)], computed in this order (the press
    does not read the scroll offsets); zoom and sizes are unchanged.
    The arithmetic rounds: in the widget [fractional_pan], whose pan is
    [-1145.3], a press at [1114] and a move that leaves the pointer
    where it is, the page not scrolled, change the stored pan. *)
Theorem b64_drag_displacement
    (w : B64.Widget) (e0x e0y e1x e1y ox oy : spec_float) :
  B64.widget_ok w ->
  B64.state (B64.run w [B64.MouseDown e0x e0y; B64.MouseMove e1x e1y ox oy])
  = B64.set_position (B64.state w)
      (B64.getPosition (B64.state w)
         (B64.mkPos
            (B64.nsub (B64.nadd e1x ox)
                      (B64.nsub e0x (B64.x (B64.position (B64.state w)))))
            (B64.nsub (B64.nadd e1y oy)
                      (B64.nsub e0y (B64.y (B64.position (B64.state w))))))) /\
  B64.widget_ok B64.fractional_pan /\
  B64.position (B64.state (B64.run B64.fractional_pan
                  [B64.MouseDown (B64.of_Z 1114) (B64.of_Z 0);
                   B64.MouseMove (B64.of_Z 1114) (B64.of_Z 0)
                                 (B64.of_Z 0) (B64.of_Z 0)]))
  <> B64.position (B64.state B64.fractional_pan).
Proof.
  intros [Hst _]. split; [|split].
  - cbn [B64.run fold_left B64.step]. unfold B64.onmousemove.
    cbn [B64.dragging B64.onmousedown B64.state B64.x B64.y
         B64.widget_setState].
    apply b64_position_call. exact Hst.
  - split; [apply b64_unmeasured_stable|]; reflexivity.
  - vm_compute. discriminate.
Qed.

Lemma b64_drag_displacement_witness :
  B64.state (B64.run B64.fractional_pan
               [B64.MouseDown (B64.of_Z 1114) (B64.of_Z 0);
                B64.MouseMove (B64.of_Z 1120) (B64.of_Z 3) (B64.of_Z 0) (B64.of_Z 9)])
  = B64.set_position (B64.state B64.fractional_pan)
      (B64.getPosition (B64.state B64.fractional_pan)
         (B64.mkPos
            (B64.nsub (B64.nadd (B64.of_Z 1120) (B64.of_Z 0))
                      (B64.nsub (B64.of_Z 1114)
                         (B64.x (B64.position (B64.state B64.fractional_pan)))))
            (B64.nsub (B64.nadd (B64.of_Z 3) (B64.of_Z 9))
                      (B64.nsub (B64.of_Z 0)
                         (B64.y (B64.position (B64.state B64.fractional_pan))))))).
Proof.
  apply (b64_drag_displacement B64.fractional_pan).
  split; [apply b64_unmeasured_stable|]; reflexivity.
Defined.
